(** * Webhook job scheduler: the job runner

    A shallow embedding of [JobRunnerService] (job-runner.service.ts) and of
    the [JobEntity] rows it works on (job.entity.ts).

    What is modelled and how:
    - the job table is a list of rows, looked up by primary key; a store
      call and the synchronous code around it are one step;
    - the two registries [timers] and [cronJobs] are finite maps from a
      string key to a handle; the handle stands for the object returned by
      [setTimeout] / [cron.schedule];
    - Node's pending timeouts and node-cron's started tasks are two finite
      maps from handles to what they will run; only [clearTimeout], [stop]
      and the firing of a timeout remove from them, deleting a registry
      entry does not;
    - a queued function is always [() => this.execute(job.id)], so a task is
      represented by the job id it executes;
    - [execute] awaits the HTTP call in its middle: it is split at that
      await into [execute_begin] and [execute_finish], and the promise chains
      that were started and have not reached [finally] yet are kept in
      [inflight];
    - [Date.now()], the HTTP outcome and [Math.floor(Math.random() * base)]
      are inputs of the functions that read them;
    - [attempt_count] is a natural number (the column is only ever written
      with 0 or with its successor), times and delays are integers in
      milliseconds; a date string that does not parse is not modelled;
    - the logger is write-only and is left out; the request-shaping columns
      (target, headers, params, payload, body) only feed the axios
      configuration and are left out as well. *)

From Stdlib Require Import ZArith Ascii String List Bool Lia.
From stdpp Require Import base gmap strings list pretty.

Local Open Scope Z_scope.

(** ** job.entity.ts *)

(** [JobType = 'oneoff' | 'recurring'] *)
Inductive JobType := Oneoff | Recurring.

(** [JobStatus = 'scheduled' | 'running' | 'failed' | 'completed' | 'paused'] *)
Inductive JobStatus := Scheduled | Running | Failed | Completed | Paused.

#[global] Instance JobType_eq_dec : EqDecision JobType.
Proof. solve_decision. Defined.

#[global] Instance JobStatus_eq_dec : EqDecision JobStatus.
Proof. solve_decision. Defined.

(** The [scheduling] json column. [execute_at] is the value of
    [new Date(execute_at).getTime()], in milliseconds; [None] stands for a
    missing (falsy) field. *)
Record Scheduling := {
  execute_at : option Z;
  cron : option string;
  timezone : option string
}.

(** The [retries] json column; every field is optional (RetriesDto). *)
Record Retries := {
  enabled : option bool;
  max_attempts : option Z;
  retryable_statuses : option (list Z)
}.

Module Job.
Record JobEntity := mk {
  id : string;
  type : JobType;
  scheduling : option Scheduling;
  retries : option Retries;
  status : JobStatus;
  attempt_count : nat;
  last_error : option string
}.
End Job.

Abbreviation JobEntity := Job.JobEntity.

Definition set_status (s : JobStatus) (job : JobEntity) : JobEntity :=
  Job.mk (Job.id job) (Job.type job) (Job.scheduling job) (Job.retries job)
         s (Job.attempt_count job) (Job.last_error job).

Definition set_attempt_count (n : nat) (job : JobEntity) : JobEntity :=
  Job.mk (Job.id job) (Job.type job) (Job.scheduling job) (Job.retries job)
         (Job.status job) n (Job.last_error job).

Definition set_last_error (e : option string) (job : JobEntity) : JobEntity :=
  Job.mk (Job.id job) (Job.type job) (Job.scheduling job) (Job.retries job)
         (Job.status job) (Job.attempt_count job) e.

(** ** The repository (typeorm [Repository<JobEntity>]) *)

(** [repo.findOneBy({ id })] *)
Definition findOneBy (i : string) (rows : list JobEntity) : option JobEntity :=
  List.find (fun row => bool_decide (Job.id row = i)) rows.

(** [repo.save(job)]: update the row with the job's primary key, or insert
    the job when there is none. *)
Definition save (job : JobEntity) (rows : list JobEntity) : list JobEntity :=
  match findOneBy (Job.id job) rows with
  | Some _ =>
      List.map (fun row => if bool_decide (Job.id row = Job.id job) then job else row) rows
  | None => rows ++ [job]
  end.

(** ** Platform objects *)

(** What a pending timeout runs when it fires. [Recheck job] is the closure
    of the too-far-in-the-future branch of [scheduleOneOff];
    [Submit key i] is the closure
    [this.timers.delete(key); this.enqueue(() => this.execute(i))], used by
    the main timer with [key = i] and by a retry timer with the retry key. *)
Inductive Callback :=
  | Recheck (job : JobEntity)
  | Submit (key : string) (i : string).

Record Pending := {
  delay : Z;
  callback : Callback
}.

(** A started node-cron task: its expression, its options and the job it
    submits on each tick. *)
Record CronTask := {
  cron_expr : string;
  cron_tz : option string;
  cron_job : string
}.

(** Where a started promise chain [Promise.resolve().then(fn)] stands:
    [fn] not entered yet, or [execute] suspended at [await axios(cfg)] with
    its local [job] object. *)
Inductive Phase :=
  | Starting
  | Awaiting (job : JobEntity).

(** What [await axios(cfg)] produced: a response with its status
    ([validateStatus] accepts every status) or a thrown error with its
    message. *)
Inductive HttpResult :=
  | Response (st : Z)
  | TransportError (message : string).

(** ** The service state *)

Record Runner := {
  repo : list JobEntity;
  timers : gmap string nat;
  cronJobs : gmap string nat;
  running : Z;
  queue : list string;
  (* the platform: pending timeouts, started cron tasks, the next handle
     to hand out, and the promise chains in flight *)
  event_loop : gmap nat Pending;
  cron_loop : gmap nat CronTask;
  next_handle : nat;
  inflight : list (string * Phase);
  (* history: every id handed to [enqueue], and every id whose function
     was started, both in order *)
  submitted : list string;
  launched : list string
}.

Definition set_repo (x : list JobEntity) (r : Runner) : Runner :=
  Build_Runner x (timers r) (cronJobs r) (running r) (queue r) (event_loop r)
    (cron_loop r) (next_handle r) (inflight r) (submitted r) (launched r).

Definition set_timers (x : gmap string nat) (r : Runner) : Runner :=
  Build_Runner (repo r) x (cronJobs r) (running r) (queue r) (event_loop r)
    (cron_loop r) (next_handle r) (inflight r) (submitted r) (launched r).

Definition set_cronJobs (x : gmap string nat) (r : Runner) : Runner :=
  Build_Runner (repo r) (timers r) x (running r) (queue r) (event_loop r)
    (cron_loop r) (next_handle r) (inflight r) (submitted r) (launched r).

Definition set_running (x : Z) (r : Runner) : Runner :=
  Build_Runner (repo r) (timers r) (cronJobs r) x (queue r) (event_loop r)
    (cron_loop r) (next_handle r) (inflight r) (submitted r) (launched r).

Definition set_queue (x : list string) (r : Runner) : Runner :=
  Build_Runner (repo r) (timers r) (cronJobs r) (running r) x (event_loop r)
    (cron_loop r) (next_handle r) (inflight r) (submitted r) (launched r).

Definition set_event_loop (x : gmap nat Pending) (r : Runner) : Runner :=
  Build_Runner (repo r) (timers r) (cronJobs r) (running r) (queue r) x
    (cron_loop r) (next_handle r) (inflight r) (submitted r) (launched r).

Definition set_cron_loop (x : gmap nat CronTask) (r : Runner) : Runner :=
  Build_Runner (repo r) (timers r) (cronJobs r) (running r) (queue r) (event_loop r)
    x (next_handle r) (inflight r) (submitted r) (launched r).

Definition set_next_handle (x : nat) (r : Runner) : Runner :=
  Build_Runner (repo r) (timers r) (cronJobs r) (running r) (queue r) (event_loop r)
    (cron_loop r) x (inflight r) (submitted r) (launched r).

Definition set_inflight (x : list (string * Phase)) (r : Runner) : Runner :=
  Build_Runner (repo r) (timers r) (cronJobs r) (running r) (queue r) (event_loop r)
    (cron_loop r) (next_handle r) x (submitted r) (launched r).

Definition set_submitted (x : list string) (r : Runner) : Runner :=
  Build_Runner (repo r) (timers r) (cronJobs r) (running r) (queue r) (event_loop r)
    (cron_loop r) (next_handle r) (inflight r) x (launched r).

Definition set_launched (x : list string) (r : Runner) : Runner :=
  Build_Runner (repo r) (timers r) (cronJobs r) (running r) (queue r) (event_loop r)
    (cron_loop r) (next_handle r) (inflight r) (submitted r) x.

(** A freshly constructed service over a given table. *)
Definition new_runner (rows : list JobEntity) : Runner :=
  Build_Runner rows ∅ ∅ 0 [] ∅ ∅ 0%nat [] [] [].

(** ** Constants of the service *)

(** [private concurrency = 5] *)
Definition concurrency : Z := 5.

(** [const MAX_TIMEOUT = 2147483647] in [scheduleOneOff] *)
Definition MAX_TIMEOUT : Z := 2147483647.

(** [const base = 1000] in [execute] *)
Definition base : Z := 1000.

(** ** Platform calls *)

(** [setTimeout(cb, d)]: a new handle, pending in the event loop. *)
Definition setTimeout (cb : Callback) (d : Z) (r : Runner) : nat * Runner :=
  let h := next_handle r in
  (h, set_next_handle (S h)
        (set_event_loop (<[h := {| delay := d; callback := cb |}]> (event_loop r)) r)).

(** [clearTimeout(t)] *)
Definition clearTimeout (t : nat) (r : Runner) : Runner :=
  set_event_loop (delete t (event_loop r)) r.

(** [task.stop()] *)
Definition stop (task : nat) (r : Runner) : Runner :=
  set_cron_loop (delete task (cron_loop r)) r.

(** JavaScript truthiness of an optional string: [undefined], [null] and
    the empty string are falsy. *)
Definition truthy (s : option string) : option string :=
  match s with
  | Some x => if bool_decide (x = EmptyString) then None else Some x
  | None => None
  end.

(** ** The execution queue: [enqueue] and [_taskDone] *)

(** [Promise.resolve().then(fn).catch(..).finally(() => this._taskDone())]:
    the chain is started. *)
Definition launch (fn : string) (r : Runner) : Runner :=
  set_launched (launched r ++ [fn]) (set_inflight (inflight r ++ [(fn, Starting)]) r).

Definition enqueue (fn : string) (r0 : Runner) : Runner :=
  let r := set_submitted (submitted r0 ++ [fn]) r0 in
  if running r <? concurrency then
    launch fn (set_running (running r + 1) r)
  else
    set_queue (queue r ++ [fn]) r.

Definition _taskDone (r0 : Runner) : Runner :=
  let r := set_running (Z.max 0 (running r0 - 1)) r0 in
  match queue r with
  | next :: rest => launch next (set_running (running r + 1) (set_queue rest r))
  | [] => r
  end.

(** ** Arming *)

Definition scheduleOneOff (job : JobEntity) (now : Z) (r : Runner) : Runner :=
  match Job.scheduling job ≫= execute_at with
  | None => r
  | Some runAt =>
      if (runAt <=? now) && bool_decide (Job.status job = Scheduled) then
        enqueue (Job.id job) r
      else
        let delay := Z.max 0 (runAt - now) in
        if delay >? MAX_TIMEOUT then
          let '(t, r1) := setTimeout (Recheck job) (Z.min delay MAX_TIMEOUT) r in
          set_timers (<[Job.id job := t]> (timers r1)) r1
        else
          let '(t, r1) := setTimeout (Submit (Job.id job) (Job.id job)) delay r in
          set_timers (<[Job.id job := t]> (timers r1)) r1
  end.

Section WithCron.

(** node-cron's own validation of an expression and its options:
    [cron.schedule] throws when it is refused, and [scheduleRecurring]
    catches and logs. *)
Variable cron_accepts : string → option string → bool.

Definition scheduleRecurring (job : JobEntity) (r : Runner) : Runner :=
  match truthy (Job.scheduling job ≫= cron) with
  | None => r
  | Some cronExpr =>
      let options := truthy (Job.scheduling job ≫= timezone) in
      if cron_accepts cronExpr options then
        let task := next_handle r in
        let r1 := set_next_handle (S task)
                    (set_cron_loop
                       (<[task := {| cron_expr := cronExpr; cron_tz := options;
                                     cron_job := Job.id job |}]> (cron_loop r)) r) in
        set_cronJobs (<[Job.id job := task]> (cronJobs r1)) r1
      else r
  end.

Definition scheduleNewJob (job : JobEntity) (now : Z) (r : Runner) : Runner :=
  match Job.type job with
  | Oneoff => scheduleOneOff job now r
  | Recurring => scheduleRecurring job r
  end.

(** [onModuleInit]: every row of [repo.find()] is armed; [clock job] is what
    [Date.now()] returns while that row is armed. *)
Definition onModuleInit (clock : JobEntity → Z) (r : Runner) : Runner :=
  foldl (fun acc job => scheduleNewJob job (clock job) acc) r (repo r).

End WithCron.

(** ** The executor *)

Definition responseStatus (res : HttpResult) : Z :=
  match res with
  | Response st => st
  | TransportError _ => 0
  end.

Definition errorMessage (res : HttpResult) : option string :=
  match res with
  | Response _ => None
  | TransportError m => Some m
  end.

(** [const success = responseStatus > 0 && responseStatus < 400] *)
Definition success (res : HttpResult) : bool :=
  (0 <? responseStatus res) && (responseStatus res <? 400).

(** [job.id + ':retry:' + attempt] *)
Definition retry_key (i : string) (attempt : nat) : string :=
  i +:+ ":retry:" +:+ pretty attempt.

(** [retries.enabled ?? false], [retries.max_attempts ?? 0] and
    [retries.retryable_statuses ?? []] over [job.retries ?? {}]. *)
Definition retries_enabled (job : JobEntity) : bool :=
  default false (Job.retries job ≫= enabled).

Definition retries_maxAttempts (job : JobEntity) : Z :=
  default 0 (Job.retries job ≫= max_attempts).

Definition retries_retryable (job : JobEntity) : list Z :=
  default [] (Job.retries job ≫= retryable_statuses).

(** [errorMessage !== null || retryable.includes(responseStatus)] *)
Definition isRetryable (job : JobEntity) (res : HttpResult) : bool :=
  bool_decide (errorMessage res ≠ None)
  || existsb (Z.eqb (responseStatus res)) (retries_retryable job).

(** [execute] up to [await axios(cfg)]: the loaded job, marked running and
    saved, or nothing when the call returns at one of the two guards. *)
Definition execute_begin (i : string) (r : Runner) : Runner * option JobEntity :=
  match findOneBy i (repo r) with
  | None => (r, None)
  | Some job =>
      if bool_decide (Job.status job = Running) then (r, None)
      else
        let job1 := set_attempt_count (Job.attempt_count job + 1) (set_status Running job) in
        (set_repo (save job1 (repo r)) r, Some job1)
  end.

(** [execute] from the HTTP outcome on. [jitter] is the value of
    [Math.floor(Math.random() * base)]. The [delay] of the retry timer is
    the mathematical value of [backoff + jitter]: the source computes it in
    doubles, where it is that value as long as it is below 2^53 (attempts up
    to 43), and hands it to [setTimeout] as it is, with no clamp at
    [MAX_TIMEOUT] (which attempts from 22 on exceed). *)
Definition execute_finish (job : JobEntity) (res : HttpResult) (jitter : Z)
    (r : Runner) : Runner :=
  if success res then
    let job1 :=
      set_attempt_count 0
        (set_status (if bool_decide (Job.type job = Oneoff) then Completed else Scheduled)
           (set_last_error None job)) in
    set_repo (save job1 (repo r)) r
  else
    let job1 :=
      set_last_error
        (Some (default ("status:" +:+ pretty (responseStatus res)) (errorMessage res)))
        job in
    let r1 := set_repo (save job1 (repo r)) r in
    if retries_enabled job1
       && (Z.of_nat (Job.attempt_count job1) <? retries_maxAttempts job1)
       && isRetryable job1 res
    then
      let attempt := Job.attempt_count job1 in
      let backoff := 2 ^ Z.of_nat attempt * base in
      let delay := backoff + jitter in
      let '(t, r2) := setTimeout (Submit (retry_key (Job.id job1) attempt) (Job.id job1))
                        delay r1 in
      set_timers (<[retry_key (Job.id job1) attempt := t]> (timers r2)) r2
    else
      let job2 := set_status Failed job1 in
      set_repo (save job2 (repo r1)) r1.

(** [execute(id)] when nothing else runs between its awaits. *)
Definition execute (i : string) (res : HttpResult) (jitter : Z) (r : Runner) : Runner :=
  match execute_begin i r with
  | (r1, Some job) => execute_finish job res jitter r1
  | (r1, None) => r1
  end.

(** ** Disarming *)

(** One turn of the loop over [Array.from(this.timers.keys())]. *)
Definition clear_retry (pre : string) (r : Runner) (key : string) : Runner :=
  if String.prefix pre key then
    let r1 := match timers r !! key with
              | Some rt => clearTimeout rt r
              | None => r
              end in
    set_timers (delete key (timers r1)) r1
  else r.

(** The three blocks of [unscheduleJob]: clear the main timer, clear the
    retry timers (the keys that start with [id:retry:]), stop the cron task
    if present. *)
Definition clear_main (i : string) (r : Runner) : Runner :=
  match timers r !! i with
  | Some t =>
      let r' := clearTimeout t r in
      set_timers (delete i (timers r')) r'
  | None => r
  end.

Definition clear_retries (i : string) (r : Runner) : Runner :=
  foldl (clear_retry (i +:+ ":retry:")) r (map_to_list (timers r)).*1.

Definition stop_cron (i : string) (r : Runner) : Runner :=
  match cronJobs r !! i with
  | Some task =>
      let r' := stop task r in
      set_cronJobs (delete i (cronJobs r')) r'
  | None => r
  end.

Definition unscheduleJob (i : string) (r : Runner) : Runner :=
  stop_cron i (clear_retries i (clear_main i r)).

Definition unscheduleAll (r : Runner) : Runner :=
  let r1 := foldl (fun acc kt =>
                     let acc' := clearTimeout kt.2 acc in
                     set_timers (delete kt.1 (timers acc')) acc')
                  r (map_to_list (timers r)) in
  foldl (fun acc it =>
           let acc' := stop it.2 acc in
           set_cronJobs (delete it.1 (cronJobs acc')) acc')
        r1 (map_to_list (cronJobs r1)).

(** [onModuleDestroy]: timers cleared and cron tasks stopped; the two maps
    keep their entries. *)
Definition onModuleDestroy (r : Runner) : Runner :=
  let r1 := foldl (fun acc kt => clearTimeout kt.2 acc) r (map_to_list (timers r)) in
  foldl (fun acc it => stop it.2 acc) r1 (map_to_list (cronJobs r1)).

(** ** What the platform does to the service *)

(** A pending timeout fires: it leaves the event loop and its closure runs.
    [now] is what [Date.now()] returns inside the closure. *)
Definition timer_fires (t : nat) (now : Z) (r : Runner) : Runner :=
  match event_loop r !! t with
  | None => r
  | Some p =>
      let r1 := set_event_loop (delete t (event_loop r)) r in
      match callback p with
      | Recheck job =>
          scheduleOneOff job now (set_timers (delete (Job.id job) (timers r1)) r1)
      | Submit key i =>
          enqueue i (set_timers (delete key (timers r1)) r1)
      end
  end.

(** A started cron task ticks. *)
Definition cron_ticks (task : nat) (r : Runner) : Runner :=
  match cron_loop r !! task with
  | None => r
  | Some c => enqueue (cron_job c) r
  end.

(** The [k]-th promise chain in flight settles and its [finally] runs. *)
Definition settle (k : nat) (r : Runner) : Runner :=
  _taskDone (set_inflight (delete k (inflight r)) r).

(** The [k]-th chain enters its function, [execute(id)], and runs it up to
    the HTTP call. *)
Definition task_begins (k : nat) (r : Runner) : Runner :=
  match inflight r !! k with
  | Some (i, Starting) =>
      match execute_begin i r with
      | (r1, Some job) => set_inflight (<[k := (i, Awaiting job)]> (inflight r1)) r1
      | (r1, None) => settle k r1
      end
  | _ => r
  end.

(** The HTTP call of the [k]-th chain comes back and [execute] runs to its
    end. *)
Definition task_responds (k : nat) (res : HttpResult) (jitter : Z) (r : Runner) : Runner :=
  match inflight r !! k with
  | Some (_, Awaiting job) => settle k (execute_finish job res jitter r)
  | _ => r
  end.

(** The function of the [k]-th chain throws (a rejected store call, say):
    [catch] logs and [finally] still runs. *)
Definition task_throws (k : nat) (r : Runner) : Runner :=
  match inflight r !! k with
  | Some _ => settle k r
  | None => r
  end.

Inductive Event :=
  | ModuleInit (clock : JobEntity → Z)
  | ModuleDestroy
  | NewJob (job : JobEntity) (now : Z)
  | Unschedule (i : string)
  | UnscheduleEverything
  | TimerFires (t : nat) (now : Z)
  | CronTicks (task : nat)
  | TaskBegins (k : nat)
  | TaskResponds (k : nat) (res : HttpResult) (jitter : Z)
  | TaskThrows (k : nat).

Definition step (cron_accepts : string → option string → bool) (r : Runner)
    (e : Event) : Runner :=
  match e with
  | ModuleInit clock => onModuleInit cron_accepts clock r
  | ModuleDestroy => onModuleDestroy r
  | NewJob job now => scheduleNewJob cron_accepts job now r
  | Unschedule i => unscheduleJob i r
  | UnscheduleEverything => unscheduleAll r
  | TimerFires t now => timer_fires t now r
  | CronTicks task => cron_ticks task r
  | TaskBegins k => task_begins k r
  | TaskResponds k res jitter => task_responds k res jitter r
  | TaskThrows k => task_throws k r
  end.

Definition run (cron_accepts : string → option string → bool) (evs : list Event)
    (r : Runner) : Runner :=
  foldl (step cron_accepts) r evs.

(** ** Predicates used in the statements *)




(** Every handle in use was handed out before [next_handle]. *)
Definition handles_fresh (r : Runner) : Prop :=
  (∀ h, is_Some (event_loop r !! h) → (h < next_handle r)%nat) ∧
  (∀ h, is_Some (cron_loop r !! h) → (h < next_handle r)%nat).

(** The counters and lists of the execution queue. *)
Definition queue_state (r : Runner) :=
  (running r, queue r, inflight r, submitted r, launched r).

(** The invariant of the execution queue. *)
Definition queue_inv (r : Runner) : Prop :=
  0 ≤ running r ≤ concurrency ∧
  running r = Z.of_nat (length (inflight r)) ∧
  (queue r ≠ [] → running r = concurrency) ∧
  submitted r = launched r ++ queue r.

(** No promise chain in flight holds a local copy of job [i]. *)
Definition no_copy_in_flight (i : string) (r : Runner) : Prop :=
  Forall (fun e => match e.2 with
                   | Awaiting job => Job.id job ≠ i
                   | Starting => True
                   end) (inflight r).

(** A state to which a timeout was just added under a registry key. *)
Definition with_timer (key : string) (p : Pending) (r : Runner) : Runner :=
  set_timers (<[key := next_handle r]> (timers r))
    (set_next_handle (S (next_handle r))
       (set_event_loop (<[next_handle r := p]> (event_loop r)) r)).

(** The one-off chain: starting from a state where job's timer is
    registered, fire the registered timer [n] times, each time exactly when
    it is due. The result is the clock reading after the last firing and the
    state then. *)
Fixpoint fire_when_due (n : nat) (i : string) (now : Z) (r : Runner) : Z * Runner :=
  match n with
  | O => (now, r)
  | S n' =>
      match timers r !! i ≫= (fun t => event_loop r !! t ≫= (fun p => Some (t, p))) with
      | Some (t, p) => fire_when_due n' i (now + delay p) (timer_fires t (now + delay p) r)
      | None => (now, r)
      end
  end.

(** ** Sample jobs and states for the worked instances *)

Definition accept_all : string → option string → bool := fun _ _ => true.

(** The retry policy of the e2e test: three attempts, 429 and 500 retried. *)
Definition retry_3 : Retries :=
  {| enabled := Some true; max_attempts := Some 3; retryable_statuses := Some [429; 500] |}.

(** Scenario C of the specification: two attempts, 503 retried. *)
Definition retry_2_503 : Retries :=
  {| enabled := Some true; max_attempts := Some 2; retryable_statuses := Some [503] |}.

Definition at_1000 : Scheduling :=
  {| execute_at := Some 1000; cron := None; timezone := Some "UTC"%string |}.

Definition job_a : JobEntity :=
  Job.mk "job-a" Oneoff (Some at_1000) (Some retry_3) Scheduled 0 None.

Definition job_b : JobEntity :=
  Job.mk "job-b" Oneoff (Some at_1000) None Scheduled 0 None.

Definition job_c : JobEntity :=
  Job.mk "job-c" Oneoff (Some at_1000) (Some retry_2_503) Scheduled 0 None.

Definition job_nightly : JobEntity :=
  Job.mk "job-n" Recurring
    (Some {| execute_at := None; cron := Some "0 0 * * *"%string; timezone := Some "UTC"%string |})
    (Some retry_3) Scheduled 0 None.

(** One-off jobs due in five seconds and in sixty days, read at time 0. *)
Definition job_soon : JobEntity :=
  Job.mk "job-s" Oneoff
    (Some {| execute_at := Some 5000; cron := None; timezone := Some "UTC"%string |})
    (Some retry_3) Scheduled 0 None.

Definition job_far : JobEntity :=
  Job.mk "job-f" Oneoff
    (Some {| execute_at := Some 5184000000; cron := None; timezone := Some "UTC"%string |})
    None Scheduled 0 None.

(** One-off jobs whose time has passed: one completed, one left running. *)
Definition job_done : JobEntity :=
  Job.mk "job-d" Oneoff (Some at_1000) None Completed 0 None.

Definition job_stuck : JobEntity :=
  Job.mk "job-r" Oneoff (Some at_1000) (Some retry_3) Running 1 None.

(** A state in which one id has a main timer, a retry timer and a cron
    task registered. *)
Definition fully_armed : Runner :=
  scheduleRecurring accept_all
    (Job.mk "job-s" Recurring
       (Some {| execute_at := None; cron := Some "* * * * *"%string; timezone := None |})
       None Scheduled 0 None)
    (execute "job-s" (Response 500) 7 (scheduleOneOff job_soon 0 (new_runner [job_soon]))).

(** The row of job [i] is [job], it is [running], and no call of [execute]
    that could write it back is waiting for its HTTP response. *)
Definition stuck_running (i : string) (job : JobEntity) (r : Runner) : Prop :=
  findOneBy i (repo r) = Some job ∧ Job.status job = Running ∧ no_copy_in_flight i r.

(** ** scheduler.service.ts *)

(** [repo.remove(job)]: the row with the job's primary key is deleted. *)
Definition repo_remove (job : JobEntity) (rows : list JobEntity) : list JobEntity :=
  List.filter (fun row => negb (bool_decide (Job.id row = Job.id job))) rows.

Module Dto.
(** The fields of [CreateJobDto] that reach the runner. *)
Record CreateJobDto := mk {
  type : JobType;
  scheduling : option Scheduling;
  retries : option Retries
}.
End Dto.

Module SchedulerService.

(** [create(createDto)]. [uuid] is the primary key the store generates on
    [save]; [now] is the clock reading inside [scheduleNewJob]. *)
Definition create (cron_accepts : string → option string → bool)
    (createDto : Dto.CreateJobDto) (uuid : string) (now : Z) (r : Runner)
    : JobEntity * Runner :=
  let saved := Job.mk uuid (Dto.type createDto) (Dto.scheduling createDto)
                 (Dto.retries createDto) Scheduled 0 None in
  (saved, scheduleNewJob cron_accepts saved now (set_repo (save saved (repo r)) r)).

(** [findOne(id)] and [update(job)] *)
Definition findOne (i : string) (r : Runner) : option JobEntity :=
  findOneBy i (repo r).


(** [remove(id)] *)
Definition remove (i : string) (r : Runner) : Runner :=
  match findOneBy i (repo r) with
  | None => r
  | Some job =>
      let r1 := unscheduleJob i r in
      set_repo (repo_remove job (repo r1)) r1
  end.

(** [removeAll()]: [unscheduleAll], then [repo.clear()]. *)
Definition removeAll (r : Runner) : Runner :=
  set_repo [] (unscheduleAll r).

End SchedulerService.

(** ** More predicates used in the statements *)

(** The rows [onModuleInit] hands to the queue at once: one-off, with an
    [execute_at] that has passed on the clock reading taken for the row, and
    [scheduled]. *)
Definition due_at_startup (clock : JobEntity → Z) (job : JobEntity) : bool :=
  bool_decide (Job.type job = Oneoff)
  && match Job.scheduling job ≫= execute_at with
     | Some runAt => (runAt <=? clock job) && bool_decide (Job.status job = Scheduled)
     | None => false
     end.

(** The registry key a timeout's closure deletes when it fires. *)
Definition key_of (cb : Callback) : string :=
  match cb with
  | Recheck job => Job.id job
  | Submit key _ => key
  end.

(** Every registry entry names a timeout that is pending and whose closure
    deletes that very entry, and every cron entry names a started task of
    that job. *)
Definition registry_live (r : Runner) : Prop :=
  (∀ key t, timers r !! key = Some t →
            ∃ p, event_loop r !! t = Some p ∧ key_of (callback p) = key) ∧
  (∀ i task, cronJobs r !! i = Some task →
             ∃ c, cron_loop r !! task = Some c ∧ cron_job c = i).

(** The trace has no [onModuleDestroy]. *)
Definition no_destroy (evs : list Event) : Prop :=
  Forall (fun e => e ≠ ModuleDestroy) evs.

(** [n] ticks of one cron task in a row. *)
Definition ticks (n : nat) (task : nat) (r : Runner) : Runner :=
  Nat.iter n (cron_ticks task) r.

(** The first chain in flight settles, [n] times in a row. *)
Fixpoint drain (n : nat) (r : Runner) : Runner :=
  match n with
  | O => r
  | S n' => drain n' (settle 0 r)
  end.

(** A one-off job that is due at time 1000 and [scheduled]. *)
Definition due_job (i : string) : JobEntity :=
  Job.mk i Oneoff (Some at_1000) None Scheduled 0 None.

Definition seven_due : list JobEntity :=
  [due_job "j1"; due_job "j2"; due_job "j3"; due_job "j4"; due_job "j5"; due_job "j6";
   due_job "j7"].

(** ** The service as its callers drive it *)













(** * Properties *)

(** ** The repository *)

Lemma findOneBy_id i rows job :
  findOneBy i rows = Some job → Job.id job = i.
Proof.
  unfold findOneBy. intros H. apply find_some in H as [_ H].
  by apply bool_decide_eq_true in H.
Qed.

Lemma findOneBy_map_ne i job rows :
  i ≠ Job.id job →
  findOneBy i (List.map (fun row => if bool_decide (Job.id row = Job.id job) then job else row) rows)
  = findOneBy i rows.
Proof.
  intros Hne. unfold findOneBy. induction rows as [|row rows IH]; [done|].
  simpl. destruct (decide (Job.id row = Job.id job)) as [Hrow|Hrow].
  - rewrite (bool_decide_eq_true_2 _ Hrow).
    rewrite (bool_decide_eq_false_2 (Job.id job = i)) by congruence.
    rewrite (bool_decide_eq_false_2 (Job.id row = i)) by congruence.
    exact IH.
  - rewrite (bool_decide_eq_false_2 _ Hrow).
    destruct (bool_decide (Job.id row = i)); [done | exact IH].
Qed.

Lemma findOneBy_map_eq job job0 rows :
  findOneBy (Job.id job) rows = Some job0 →
  findOneBy (Job.id job)
    (List.map (fun row => if bool_decide (Job.id row = Job.id job) then job else row) rows)
  = Some job.
Proof.
  unfold findOneBy. induction rows as [|row rows IH]; [done|].
  simpl. destruct (decide (Job.id row = Job.id job)) as [Hrow|Hrow].
  - rewrite !(bool_decide_eq_true_2 _ Hrow). intros _.
    by rewrite bool_decide_eq_true_2.
  - rewrite !(bool_decide_eq_false_2 _ Hrow). by apply IH.
Qed.

Lemma findOneBy_app i rows rows' :
  findOneBy i (rows ++ rows') =
  match findOneBy i rows with
  | Some job => Some job
  | None => findOneBy i rows'
  end.
Proof.
  unfold findOneBy. induction rows as [|row rows IH]; [done|].
  simpl. destruct (bool_decide (Job.id row = i)); [done | exact IH].
Qed.

Lemma findOneBy_save_eq job rows :
  findOneBy (Job.id job) (save job rows) = Some job.
Proof.
  unfold save. destruct (findOneBy (Job.id job) rows) as [job0|] eqn:E.
  - by eapply findOneBy_map_eq.
  - rewrite findOneBy_app, E. unfold findOneBy. simpl.
    by rewrite bool_decide_eq_true_2.
Qed.

Lemma findOneBy_save_ne i job rows :
  i ≠ Job.id job → findOneBy i (save job rows) = findOneBy i rows.
Proof.
  intros Hne. unfold save. destruct (findOneBy (Job.id job) rows) as [job0|] eqn:E.
  - by apply findOneBy_map_ne.
  - rewrite findOneBy_app. destruct (findOneBy i rows); [done|].
    unfold findOneBy. simpl. by rewrite bool_decide_eq_false_2 by congruence.
Qed.

(** ** The executor *)

Lemma success_spec res :
  success res = true ↔ ∃ st, res = Response st ∧ 1 ≤ st < 400.
Proof.
  unfold success. split.
  - destruct res as [st|m]; simpl; [|done].
    intros [H1 H2]%andb_prop. exists st. split; [done|lia].
  - intros (st & -> & H). simpl. apply andb_true_intro. split; lia.
Qed.

Lemma execute_begin_fresh i job r :
  findOneBy i (repo r) = Some job →
  Job.status job ≠ Running →
  execute_begin i r =
    (set_repo (save (set_attempt_count (Job.attempt_count job + 1) (set_status Running job))
                 (repo r)) r,
     Some (set_attempt_count (Job.attempt_count job + 1) (set_status Running job))).
Proof.
  intros Hfind Hst. unfold execute_begin. rewrite Hfind.
  by rewrite bool_decide_eq_false_2.
Qed.

Lemma execute_begin_guard i r :
  (findOneBy i (repo r) = None ∨
   ∃ job, findOneBy i (repo r) = Some job ∧ Job.status job = Running) →
  execute_begin i r = (r, None).
Proof.
  unfold execute_begin. intros [->|(job & -> & Hst)]; [done|].
  by rewrite bool_decide_eq_true_2.
Qed.

Lemma execute_finish_success job res jitter r :
  success res = true →
  execute_finish job res jitter r =
    set_repo (save (Job.mk (Job.id job) (Job.type job) (Job.scheduling job) (Job.retries job)
                      (match Job.type job with Oneoff => Completed | Recurring => Scheduled end)
                      0 None) (repo r)) r.
Proof.
  intros H. unfold execute_finish. rewrite H. by destruct job as [? [] ? ? ? ? ?].
Qed.

Lemma execute_finish_failed job res jitter r :
  success res = false →
  retries_enabled job
    && (Z.of_nat (Job.attempt_count job) <? retries_maxAttempts job)
    && isRetryable job res = false →
  repo (execute_finish job res jitter r) =
    save (set_status Failed
            (set_last_error
               (Some (default ("status:" +:+ pretty (responseStatus res)) (errorMessage res)))
               job))
      (save (set_last_error
               (Some (default ("status:" +:+ pretty (responseStatus res)) (errorMessage res)))
               job) (repo r)) ∧
  timers (execute_finish job res jitter r) = timers r ∧
  event_loop (execute_finish job res jitter r) = event_loop r ∧
  cron_loop (execute_finish job res jitter r) = cron_loop r ∧
  next_handle (execute_finish job res jitter r) = next_handle r ∧
  queue_state (execute_finish job res jitter r) = queue_state r.
Proof.
  intros Hs He. unfold execute_finish. rewrite Hs.
  change (retries_enabled (set_last_error _ job)) with (retries_enabled job).
  change (retries_maxAttempts (set_last_error _ job)) with (retries_maxAttempts job).
  change (isRetryable (set_last_error _ job) res) with (isRetryable job res).
  change (Job.attempt_count (set_last_error _ job)) with (Job.attempt_count job).
  by rewrite He.
Qed.

Lemma execute_finish_retry job res jitter r :
  success res = false →
  retries_enabled job
    && (Z.of_nat (Job.attempt_count job) <? retries_maxAttempts job)
    && isRetryable job res = true →
  execute_finish job res jitter r =
    let job1 := set_last_error
                  (Some (default ("status:" +:+ pretty (responseStatus res)) (errorMessage res)))
                  job in
    let key := retry_key (Job.id job) (Job.attempt_count job) in
    let r1 := set_repo (save job1 (repo r)) r in
    set_timers (<[key := next_handle r]> (timers r))
      (set_next_handle (S (next_handle r))
         (set_event_loop
            (<[next_handle r :=
                 {| delay := 2 ^ Z.of_nat (Job.attempt_count job) * base + jitter;
                    callback := Submit key (Job.id job) |}]> (event_loop r)) r1)).
Proof.
  intros Hs He. unfold execute_finish. rewrite Hs.
  change (retries_enabled (set_last_error _ job)) with (retries_enabled job).
  change (retries_maxAttempts (set_last_error _ job)) with (retries_maxAttempts job).
  change (isRetryable (set_last_error _ job) res) with (isRetryable job res).
  change (Job.attempt_count (set_last_error _ job)) with (Job.attempt_count job).
  by rewrite He.
Qed.

(** ** What each operation leaves alone *)

Lemma enqueue_repo fn r : repo (enqueue fn r) = repo r.
Proof. unfold enqueue. simpl. by destruct (_ <? _). Qed.

Lemma enqueue_registry fn r :
  timers (enqueue fn r) = timers r ∧ cronJobs (enqueue fn r) = cronJobs r ∧
  event_loop (enqueue fn r) = event_loop r ∧ cron_loop (enqueue fn r) = cron_loop r ∧
  next_handle (enqueue fn r) = next_handle r.
Proof. unfold enqueue. simpl. by destruct (_ <? _). Qed.

Lemma _taskDone_repo r : repo (_taskDone r) = repo r.
Proof. unfold _taskDone. simpl. by destruct (queue r). Qed.

Lemma _taskDone_registry r :
  timers (_taskDone r) = timers r ∧ cronJobs (_taskDone r) = cronJobs r ∧
  event_loop (_taskDone r) = event_loop r ∧ cron_loop (_taskDone r) = cron_loop r ∧
  next_handle (_taskDone r) = next_handle r.
Proof. unfold _taskDone. simpl. by destruct (queue r). Qed.

Lemma scheduleOneOff_repo job now r : repo (scheduleOneOff job now r) = repo r.
Proof.
  unfold scheduleOneOff. destruct (_ ≫= _) as [runAt|]; [|done].
  destruct (_ && _); [apply enqueue_repo|]. by destruct (_ >? _).
Qed.

Lemma scheduleRecurring_repo ca job r : repo (scheduleRecurring ca job r) = repo r.
Proof.
  unfold scheduleRecurring. destruct (truthy _) as [e|]; [|done].
  by destruct (ca _ _).
Qed.

Lemma timer_fires_repo t now r : repo (timer_fires t now r) = repo r.
Proof.
  unfold timer_fires. destruct (event_loop r !! t) as [p|]; [|done].
  destruct (callback p); [by rewrite scheduleOneOff_repo | by rewrite enqueue_repo].
Qed.

(** ** Claims about [execute] *)

(** C4. An attempt is a success exactly when a response came back with a
    status in [1, 400) (a transport error leaves the status at 0). On a
    success of a job that was not running, [execute] persists the job with
    [last_error] cleared, [attempt_count] reset to 0 and status [completed]
    for a one-off job, [scheduled] for a recurring one; nothing is armed. *)
Theorem execute_success i job res jitter r :
  findOneBy i (repo r) = Some job →
  Job.status job ≠ Running →
  (success res = true ↔ ∃ st, res = Response st ∧ 1 ≤ st < 400) ∧
  (success res = true →
   findOneBy i (repo (execute i res jitter r)) =
     Some (Job.mk i (Job.type job) (Job.scheduling job) (Job.retries job)
             (match Job.type job with Oneoff => Completed | Recurring => Scheduled end)
             0 None) ∧
   timers (execute i res jitter r) = timers r ∧
   event_loop (execute i res jitter r) = event_loop r ∧
   queue_state (execute i res jitter r) = queue_state r).
Proof.
  intros Hfind Hst. split; [apply success_spec|]. intros Hs.
  unfold execute. rewrite (execute_begin_fresh _ _ _ Hfind Hst).
  rewrite (execute_finish_success _ _ _ _ Hs). simpl.
  pose proof (findOneBy_id _ _ _ Hfind) as Hid. split; [|done].
  subst i.
  exact (findOneBy_save_eq
           (Job.mk (Job.id job) (Job.type job) (Job.scheduling job) (Job.retries job)
              (match Job.type job with Oneoff => Completed | Recurring => Scheduled end)
              0 None) _).
Qed.

Lemma execute_success_witness :
  findOneBy "job-n" (repo (execute "job-n" (Response 204) 0 (new_runner [job_nightly]))) =
    Some (Job.mk "job-n" Recurring (Job.scheduling job_nightly) (Some retry_3) Scheduled 0 None).
Proof.
  refine (proj1 (proj2 (execute_success "job-n" job_nightly (Response 204) 0
                          (new_runner [job_nightly]) _ _) _)).
  - reflexivity.
  - discriminate.
  - reflexivity.
Defined.

(** C5. [execute(id)] changes nothing when the table has no row with that
    id, and nothing when the stored row is [running]; the second case is
    the guard against a duplicate trigger, which therefore does not count
    the attempt twice. *)
Theorem execute_noop i res jitter r :
  (findOneBy i (repo r) = None ∨
   ∃ job, findOneBy i (repo r) = Some job ∧ Job.status job = Running) →
  execute_begin i r = (r, None) ∧ execute i res jitter r = r.
Proof.
  intros H. unfold execute. by rewrite (execute_begin_guard _ _ H).
Qed.

(** A trigger that arrives while a first call of [execute] is waiting for
    its HTTP response finds the row [running]. *)
Lemma execute_begin_then_guarded i r r1 job1 :
  execute_begin i r = (r1, Some job1) →
  findOneBy i (repo r1) = Some job1 ∧ Job.status job1 = Running.
Proof.
  unfold execute_begin. destruct (findOneBy i (repo r)) as [job|] eqn:Hfind; [|done].
  case_bool_decide; [done|]. intros [= <- <-]. simpl. split; [|done].
  pose proof (findOneBy_id _ _ _ Hfind) as Hid. subst i.
  exact (findOneBy_save_eq (set_attempt_count _ (set_status Running job)) _).
Qed.

Lemma execute_noop_witness :
  execute "job-a" (Response 200) 0 (execute_begin "job-a" (new_runner [job_a])).1
  = (execute_begin "job-a" (new_runner [job_a])).1
  ∧ execute "job-z" (Response 200) 0 (new_runner [job_a]) = new_runner [job_a].
Proof.
  split.
  - refine (proj2 (execute_noop "job-a" (Response 200) 0 _ _)).
    right. eexists. split; reflexivity.
  - refine (proj2 (execute_noop "job-z" (Response 200) 0 _ _)).
    left. reflexivity.
Defined.

Lemma retries_enabled_off job :
  (Job.retries job = None ∨
   ∃ rt, Job.retries job = Some rt ∧ (enabled rt = None ∨ enabled rt = Some false)) →
  retries_enabled job = false.
Proof.
  unfold retries_enabled. intros [->|(rt & -> & [H|H])]; simpl; by rewrite ?H.
Qed.

(** C6. With the retry policy disabled or unset, one failed attempt of a
    job that was not running persists the job as [failed] (with the attempt
    counted and [last_error] set); no timer is armed and the queue is left
    as it was. *)
Theorem execute_failure_no_retry i job res jitter r :
  findOneBy i (repo r) = Some job →
  Job.status job ≠ Running →
  success res = false →
  (Job.retries job = None ∨
   ∃ rt, Job.retries job = Some rt ∧ (enabled rt = None ∨ enabled rt = Some false)) →
  findOneBy i (repo (execute i res jitter r)) =
    Some (Job.mk i (Job.type job) (Job.scheduling job) (Job.retries job) Failed
            (Job.attempt_count job + 1)
            (Some (default ("status:" +:+ pretty (responseStatus res)) (errorMessage res)))) ∧
  timers (execute i res jitter r) = timers r ∧
  event_loop (execute i res jitter r) = event_loop r ∧
  cron_loop (execute i res jitter r) = cron_loop r ∧
  queue_state (execute i res jitter r) = queue_state r.
Proof.
  intros Hfind Hst Hs Hoff.
  unfold execute. rewrite (execute_begin_fresh _ _ _ Hfind Hst).
  set (job1 := set_attempt_count _ _).
  assert (He : retries_enabled job1
               && (Z.of_nat (Job.attempt_count job1) <? retries_maxAttempts job1)
               && isRetryable job1 res = false).
  { change (retries_enabled job1) with (retries_enabled job).
    by rewrite (retries_enabled_off _ Hoff). }
  destruct (execute_finish_failed job1 res jitter
              (set_repo (save job1 (repo r)) r) Hs He) as (Hrepo & Ht & Hev & Hc & _ & Hq).
  rewrite Hrepo, Ht, Hev, Hc, Hq. split; [|done].
  pose proof (findOneBy_id _ _ _ Hfind) as Hid. subst i.
  exact (findOneBy_save_eq (set_status Failed (set_last_error _ job1)) _).
Qed.

Lemma execute_failure_no_retry_witness :
  findOneBy "job-b" (repo (execute "job-b" (Response 500) 0 (new_runner [job_b]))) =
    Some (Job.mk "job-b" Oneoff (Some at_1000) None Failed 1 (Some "status:500"%string)) ∧
  event_loop (execute "job-b" (Response 500) 0 (new_runner [job_b])) = ∅.
Proof.
  destruct (execute_failure_no_retry "job-b" job_b (Response 500) 0 (new_runner [job_b]))
    as (H1 & _ & H2 & _).
  - reflexivity.
  - discriminate.
  - reflexivity.
  - left. reflexivity.
  - split; [exact H1 | exact H2].
Defined.

(** The state [execute] leaves after a retry-eligible failure. *)
Lemma execute_retry_leaves_running_aux i job res jitter r :
  findOneBy i (repo r) = Some job →
  Job.status job ≠ Running →
  success res = false →
  retries_enabled job = true →
  Z.of_nat (Job.attempt_count job + 1) < retries_maxAttempts job →
  isRetryable job res = true →
  event_loop (execute i res jitter r) !! next_handle r =
    Some {| delay := 2 ^ Z.of_nat (Job.attempt_count job + 1) * base + jitter;
            callback := Submit (retry_key i (Job.attempt_count job + 1)) i |} ∧
  findOneBy i (repo (execute i res jitter r)) =
    Some (Job.mk i (Job.type job) (Job.scheduling job) (Job.retries job) Running
            (Job.attempt_count job + 1)
            (Some (default ("status:" +:+ pretty (responseStatus res)) (errorMessage res)))) ∧
  inflight (execute i res jitter r) = inflight r.
Proof.
  intros Hfind Hst Hs Hen Hlt Hre.
  pose proof (findOneBy_id _ _ _ Hfind) as Hid. subst i.
  unfold execute. rewrite (execute_begin_fresh _ _ _ Hfind Hst).
  rewrite execute_finish_retry; [|done|].
  2:{ change (retries_enabled (set_attempt_count _ _)) with (retries_enabled job).
      change (retries_maxAttempts (set_attempt_count _ _)) with (retries_maxAttempts job).
      change (isRetryable (set_attempt_count _ _) res) with (isRetryable job res).
      rewrite Hen, Hre. simpl. rewrite andb_true_r. apply Z.ltb_lt. exact Hlt. }
  simpl. split; [apply lookup_insert_eq|]. split; [|done].
  exact (findOneBy_save_eq
           (set_last_error _ (set_attempt_count (Job.attempt_count job + 1)
                                (set_status Running job))) _).
Qed.

(** C1, as the code has it. After a retry-eligible failure [execute] has
    armed the retry timer under the retry key, with the backoff delay and a
    closure that re-submits the job, and has kept the attempt count; but the
    persisted status is [running], not [scheduled], and so the [execute]
    that the retry timer submits returns at the guard of C5 without doing
    anything. *)
Theorem execute_retry_leaves_running i job res jitter now r :
  findOneBy i (repo r) = Some job →
  Job.status job ≠ Running →
  success res = false →
  retries_enabled job = true →
  Z.of_nat (Job.attempt_count job + 1) < retries_maxAttempts job →
  isRetryable job res = true →
  let r' := execute i res jitter r in
  let key := retry_key i (Job.attempt_count job + 1) in
  timers r' !! key = Some (next_handle r) ∧
  event_loop r' !! next_handle r =
    Some {| delay := 2 ^ Z.of_nat (Job.attempt_count job + 1) * base + jitter;
            callback := Submit key i |} ∧
  findOneBy i (repo r') =
    Some (Job.mk i (Job.type job) (Job.scheduling job) (Job.retries job) Running
            (Job.attempt_count job + 1)
            (Some (default ("status:" +:+ pretty (responseStatus res)) (errorMessage res)))) ∧
  execute_begin i (timer_fires (next_handle r) now r')
  = (timer_fires (next_handle r) now r', None).
Proof.
  intros Hfind Hst Hs Hen Hlt Hre r' key.
  pose proof (findOneBy_id _ _ _ Hfind) as Hid. subst i.
  assert (Hr' : r' = execute_finish
                       (set_attempt_count (Job.attempt_count job + 1) (set_status Running job))
                       res jitter
                       (set_repo (save (set_attempt_count (Job.attempt_count job + 1)
                                          (set_status Running job)) (repo r)) r)).
  { unfold r', execute. by rewrite (execute_begin_fresh _ _ _ Hfind Hst). }
  rewrite execute_finish_retry in Hr'; [|done|].
  2:{ change (retries_enabled (set_attempt_count _ _)) with (retries_enabled job).
      change (retries_maxAttempts (set_attempt_count _ _)) with (retries_maxAttempts job).
      change (isRetryable (set_attempt_count _ _) res) with (isRetryable job res).
      rewrite Hen, Hre. simpl. rewrite andb_true_r. apply Z.ltb_lt. exact Hlt. }
  assert (Hrow : findOneBy (Job.id job) (repo r') =
    Some (Job.mk (Job.id job) (Job.type job) (Job.scheduling job) (Job.retries job) Running
            (Job.attempt_count job + 1)
            (Some (default ("status:" +:+ pretty (responseStatus res)) (errorMessage res))))).
  { rewrite Hr'. simpl.
    exact (findOneBy_save_eq
             (set_last_error _ (set_attempt_count (Job.attempt_count job + 1)
                                  (set_status Running job))) _). }
  split; [|split; [|split]].
  - rewrite Hr'. simpl. apply lookup_insert_eq.
  - rewrite Hr'. simpl. apply lookup_insert_eq.
  - exact Hrow.
  - apply execute_begin_guard. right. eexists.
    split; [rewrite timer_fires_repo; exact Hrow | reflexivity].
Qed.

Lemma execute_retry_leaves_running_witness :
  let r' := execute "job-a" (Response 500) 7 (new_runner [job_a]) in
  Job.status <$> findOneBy "job-a" (repo r') = Some Running ∧
  event_loop r' !! 0%nat =
    Some {| delay := 2007; callback := Submit "job-a:retry:1" "job-a" |} ∧
  execute_begin "job-a" (timer_fires 0 5000 r') = (timer_fires 0 5000 r', None).
Proof.
  destruct (execute_retry_leaves_running "job-a" job_a (Response 500) 7 5000
              (new_runner [job_a])) as (_ & H2 & H3 & H4).
  - reflexivity.
  - discriminate.
  - reflexivity.
  - reflexivity.
  - vm_compute. reflexivity.
  - reflexivity.
  - intros r'. split; [|split].
    + unfold r'. rewrite H3. reflexivity.
    + exact H2.
    + exact H4.
Defined.

(** ** The execution queue *)

Lemma foldl_preserves {A B} (P : A → Prop) (f : A → B → A) (l : list B) (a : A) :
  (∀ acc x, P acc → P (f acc x)) → P a → P (foldl f a l).
Proof.
  intros Hf. revert a. induction l as [|x l IH]; simpl; [done|].
  intros a Ha. apply IH. by apply Hf.
Qed.

Lemma queue_inv_frame r r' :
  queue_state r' = queue_state r → queue_inv r → queue_inv r'.
Proof.
  unfold queue_state, queue_inv. intros [= -> -> -> -> ->]. done.
Qed.

Lemma enqueue_inv fn r : queue_inv r → queue_inv (enqueue fn r).
Proof.
  unfold queue_inv, enqueue. intros (Hb & Hlen & Hfull & Hlog). simpl.
  destruct (Z.ltb_spec (running r) concurrency) as [Hlt|Hge]; simpl.
  - repeat split; try lia.
    + rewrite length_app. simpl. lia.
    + intros Hq. specialize (Hfull Hq). lia.
    + rewrite Hlog. destruct (queue r) as [|x q] eqn:Hq.
      * by rewrite !app_nil_r.
      * assert (running r = concurrency) by (by apply Hfull). lia.
  - repeat split; try lia.
    rewrite Hlog. by rewrite app_assoc.
Qed.

Lemma settle_inv k r :
  (k < length (inflight r))%nat → queue_inv r → queue_inv (settle k r).
Proof.
  unfold queue_inv, settle, _taskDone. intros Hk (Hb & Hlen & Hfull & Hlog). simpl.
  assert (Hdel : length (delete k (inflight r)) = Nat.pred (length (inflight r))).
  { rewrite length_delete; [lia|]. by apply lookup_lt_is_Some_2. }
  destruct (queue r) as [|next rest] eqn:Hq; simpl.
  - rewrite Hdel. split; [lia|]. split; [lia|]. split; [congruence|].
    by rewrite Hlog, Hq.
  - assert (running r = concurrency) by (by apply Hfull).
    rewrite length_app, Hdel. simpl. split; [lia|]. split; [lia|]. split; [lia|].
    rewrite Hlog. by rewrite <- app_assoc.
Qed.

Lemma scheduleOneOff_queue job now r :
  scheduleOneOff job now r = enqueue (Job.id job) r ∨
  (queue_state (scheduleOneOff job now r) = queue_state r ∧
   repo (scheduleOneOff job now r) = repo r).
Proof.
  unfold scheduleOneOff. destruct (_ ≫= _) as [runAt|]; [|by right].
  destruct (_ && _); [by left|]. right. by destruct (_ >? _).
Qed.

Lemma scheduleRecurring_queue ca job r :
  queue_state (scheduleRecurring ca job r) = queue_state r.
Proof.
  unfold scheduleRecurring. destruct (truthy _) as [e|]; [|done].
  by destruct (ca _ _).
Qed.

Lemma clear_retry_frame pre r key :
  queue_state (clear_retry pre r key) = queue_state r ∧
  repo (clear_retry pre r key) = repo r.
Proof.
  unfold clear_retry. destruct (String.prefix pre key); [|done].
  by destruct (timers r !! key).
Qed.

Lemma unscheduleJob_frame i r :
  queue_state (unscheduleJob i r) = queue_state r ∧ repo (unscheduleJob i r) = repo r.
Proof.
  unfold unscheduleJob.
  assert (H1 : queue_state (clear_main i r) = queue_state r ∧ repo (clear_main i r) = repo r).
  { unfold clear_main. by destruct (timers r !! i). }
  set (r1 := clear_main i r) in *.
  assert (H2 : queue_state (clear_retries i r1) = queue_state r
               ∧ repo (clear_retries i r1) = repo r).
  { unfold clear_retries.
    apply (foldl_preserves (fun a => queue_state a = queue_state r ∧ repo a = repo r));
      [|done].
    intros acc key [Hq Hr]. destruct (clear_retry_frame (i +:+ ":retry:") acc key) as [-> ->].
    done. }
  set (r2 := clear_retries i r1) in *.
  unfold stop_cron. by destruct (cronJobs r2 !! i).
Qed.

Lemma unscheduleAll_frame r :
  queue_state (unscheduleAll r) = queue_state r ∧ repo (unscheduleAll r) = repo r.
Proof.
  unfold unscheduleAll.
  apply (foldl_preserves (fun a => queue_state a = queue_state r ∧ repo a = repo r)); [done|].
  apply (foldl_preserves (fun a => queue_state a = queue_state r ∧ repo a = repo r)); done.
Qed.

Lemma onModuleDestroy_frame r :
  queue_state (onModuleDestroy r) = queue_state r ∧ repo (onModuleDestroy r) = repo r.
Proof.
  unfold onModuleDestroy.
  apply (foldl_preserves (fun a => queue_state a = queue_state r ∧ repo a = repo r)); [done|].
  apply (foldl_preserves (fun a => queue_state a = queue_state r ∧ repo a = repo r)); done.
Qed.

Lemma execute_begin_queue i r : queue_state (execute_begin i r).1 = queue_state r.
Proof.
  unfold execute_begin. destruct (findOneBy i (repo r)) as [job|]; [|done].
  by case_bool_decide.
Qed.

Lemma execute_finish_queue job res jitter r :
  queue_state (execute_finish job res jitter r) = queue_state r.
Proof.
  unfold execute_finish. destruct (success res); [done|].
  by destruct (_ && _).
Qed.

Lemma scheduleNewJob_inv ca job now r :
  queue_inv r → queue_inv (scheduleNewJob ca job now r).
Proof.
  intros H. unfold scheduleNewJob. destruct (Job.type job).
  - destruct (scheduleOneOff_queue job now r) as [->|[Hq _]].
    + by apply enqueue_inv.
    + by eapply queue_inv_frame.
  - eapply queue_inv_frame; [apply scheduleRecurring_queue | done].
Qed.

Lemma timer_fires_inv t now r : queue_inv r → queue_inv (timer_fires t now r).
Proof.
  intros H. unfold timer_fires. destruct (event_loop r !! t) as [p|]; [|done].
  destruct (callback p) as [job|key i].
  - match goal with |- queue_inv (scheduleOneOff _ _ ?r0) =>
      assert (H0 : queue_inv r0) by (by eapply queue_inv_frame);
      destruct (scheduleOneOff_queue job now r0) as [->|[Hq _]]
    end.
    + by apply enqueue_inv.
    + by eapply queue_inv_frame.
  - apply enqueue_inv. by eapply queue_inv_frame.
Qed.

Lemma insert_inflight_inv k e r :
  queue_inv r → queue_inv (set_inflight (<[k := e]> (inflight r)) r).
Proof. unfold queue_inv. simpl. by rewrite length_insert. Qed.

Lemma queue_state_inflight r r' : queue_state r' = queue_state r → inflight r' = inflight r.
Proof. unfold queue_state. by intros [= _ _ -> _ _]. Qed.

Lemma task_begins_inv k r : queue_inv r → queue_inv (task_begins k r).
Proof.
  intros H. unfold task_begins.
  destruct (inflight r !! k) as [[i [|job]]|] eqn:Hk; [|done|done].
  pose proof (execute_begin_queue i r) as Hq.
  destruct (execute_begin i r) as [r1 [job1|]]; simpl in Hq.
  - apply insert_inflight_inv. by eapply queue_inv_frame.
  - apply settle_inv.
    + rewrite (queue_state_inflight _ _ Hq). by eapply lookup_lt_Some.
    + by eapply queue_inv_frame.
Qed.

Lemma task_responds_inv k res jitter r : queue_inv r → queue_inv (task_responds k res jitter r).
Proof.
  intros H. unfold task_responds.
  destruct (inflight r !! k) as [[i [|job]]|] eqn:Hk; [done| |done].
  pose proof (execute_finish_queue job res jitter r) as Hq.
  apply settle_inv.
  - rewrite (queue_state_inflight _ _ Hq). by eapply lookup_lt_Some.
  - by eapply queue_inv_frame.
Qed.

Lemma task_throws_inv k r : queue_inv r → queue_inv (task_throws k r).
Proof.
  intros H. unfold task_throws. destruct (inflight r !! k) eqn:Hk; [|done].
  apply settle_inv; [by eapply lookup_lt_Some | done].
Qed.

Lemma step_inv ca r e : queue_inv r → queue_inv (step ca r e).
Proof.
  intros H. destruct e; simpl.
  - unfold onModuleInit. apply foldl_preserves; [|done].
    intros acc job Hacc. by apply scheduleNewJob_inv.
  - eapply queue_inv_frame; [apply onModuleDestroy_frame | done].
  - by apply scheduleNewJob_inv.
  - eapply queue_inv_frame; [apply unscheduleJob_frame | done].
  - eapply queue_inv_frame; [apply unscheduleAll_frame | done].
  - by apply timer_fires_inv.
  - unfold cron_ticks. destruct (cron_loop r !! task); [by apply enqueue_inv | done].
  - by apply task_begins_inv.
  - by apply task_responds_inv.
  - by apply task_throws_inv.
Qed.

Lemma run_inv ca evs r : queue_inv r → queue_inv (run ca evs r).
Proof. unfold run. apply foldl_preserves. intros acc e. apply step_inv. Qed.

Lemma new_runner_inv rows : queue_inv (new_runner rows).
Proof. unfold queue_inv, new_runner, concurrency. simpl. repeat split; lia || done. Qed.

Lemma enqueue_spec fn r :
  if decide (running r < concurrency) then
    inflight (enqueue fn r) = inflight r ++ [(fn, Starting)] ∧
    running (enqueue fn r) = running r + 1 ∧
    queue (enqueue fn r) = queue r
  else
    inflight (enqueue fn r) = inflight r ∧
    running (enqueue fn r) = running r ∧
    queue (enqueue fn r) = queue r ++ [fn].
Proof.
  unfold enqueue. simpl.
  destruct (decide (running r < concurrency)) as [Hlt|Hge].
  - by rewrite (proj2 (Z.ltb_lt _ _) Hlt).
  - by rewrite (proj2 (Z.ltb_ge _ _)) by lia.
Qed.

Lemma settle_spec k r :
  1 ≤ running r →
  match queue r with
  | [] =>
      running (settle k r) = running r - 1 ∧
      inflight (settle k r) = delete k (inflight r) ∧
      queue (settle k r) = []
  | next :: rest =>
      running (settle k r) = running r ∧
      inflight (settle k r) = delete k (inflight r) ++ [(next, Starting)] ∧
      queue (settle k r) = rest
  end.
Proof.
  intros H. unfold settle, _taskDone. simpl.
  destruct (queue r) as [|next rest] eqn:Hq; simpl; (split; [lia | done]).
Qed.

Lemma task_throws_settles k r :
  (k < length (inflight r))%nat → task_throws k r = settle k r.
Proof.
  intros Hk. unfold task_throws. destruct (inflight r !! k) eqn:E; [done|].
  apply lookup_ge_None in E. lia.
Qed.

Lemma task_responds_awaiting k i job res jitter r :
  inflight r !! k = Some (i, Awaiting job) →
  task_responds k res jitter r = settle k (execute_finish job res jitter r).
Proof. intros H. unfold task_responds. by rewrite H. Qed.

Lemma settle_repo k r : repo (settle k r) = repo r.
Proof. unfold settle. by rewrite _taskDone_repo. Qed.

Lemma settle_effect k r0 r :
  queue_state r0 = queue_state r →
  1 ≤ running r →
  match queue r with
  | [] =>
      running (settle k r0) = running r - 1 ∧
      inflight (settle k r0) = delete k (inflight r) ∧
      queue (settle k r0) = [] ∧
      launched (settle k r0) = launched r
  | next :: rest =>
      running (settle k r0) = running r ∧
      inflight (settle k r0) = delete k (inflight r) ++ [(next, Starting)] ∧
      queue (settle k r0) = rest ∧
      launched (settle k r0) = launched r ++ [next]
  end.
Proof.
  unfold queue_state. intros [= Hr Hq Hi Hs Hl] H. unfold settle, _taskDone. simpl.
  rewrite Hq.
  destruct (queue r) as [|next rest] eqn:E; simpl; rewrite ?Hr, ?Hi, ?Hl, ?Hq;
    (split; [lia | done]).
Qed.

(** C7. In every state the service can reach, at most [concurrency] = 5
    tasks are running, the counter [running] being exactly the number of
    promise chains in flight, and the ids handed to [enqueue] so far are the
    started ones followed by the pending ones, in the same order (pending
    tasks start in submission order). In such a state [enqueue] starts the
    task at once when fewer than five are running and appends it to the
    pending list otherwise. A chain in flight completes when its function
    throws, when [execute] runs to its end after the HTTP response, or when
    [execute] returns at one of its two guards; in each of the three cases
    the counter goes down by one and the head of the pending list, if there
    is one, is popped and started. A chain whose [execute] goes on to the
    HTTP call keeps its slot. *)
Theorem queue_bounded_fifo ca rows evs :
  let r := run ca evs (new_runner rows) in
  concurrency = 5 ∧
  0 ≤ running r ≤ concurrency ∧
  Z.of_nat (length (inflight r)) = running r ∧
  submitted r = launched r ++ queue r ∧
  (∀ fn,
     if decide (running r < concurrency) then
       inflight (enqueue fn r) = inflight r ++ [(fn, Starting)] ∧
       running (enqueue fn r) = running r + 1 ∧
       queue (enqueue fn r) = queue r
     else
       inflight (enqueue fn r) = inflight r ∧
       running (enqueue fn r) = running r ∧
       queue (enqueue fn r) = queue r ++ [fn]) ∧
  (∀ k, (k < length (inflight r))%nat →
     task_throws k r = settle k r ∧
     match queue r with
     | [] =>
         running (settle k r) = running r - 1 ∧
         inflight (settle k r) = delete k (inflight r) ∧
         queue (settle k r) = []
     | next :: rest =>
         running (settle k r) = running r ∧
         inflight (settle k r) = delete k (inflight r) ++ [(next, Starting)] ∧
         queue (settle k r) = rest
     end) ∧
  (∀ k i job res jitter,
     inflight r !! k = Some (i, Awaiting job) →
     repo (task_responds k res jitter r) = repo (execute_finish job res jitter r) ∧
     match queue r with
     | [] =>
         running (task_responds k res jitter r) = running r - 1 ∧
         inflight (task_responds k res jitter r) = delete k (inflight r) ∧
         queue (task_responds k res jitter r) = [] ∧
         launched (task_responds k res jitter r) = launched r
     | next :: rest =>
         running (task_responds k res jitter r) = running r ∧
         inflight (task_responds k res jitter r)
         = delete k (inflight r) ++ [(next, Starting)] ∧
         queue (task_responds k res jitter r) = rest ∧
         launched (task_responds k res jitter r) = launched r ++ [next]
     end) ∧
  (∀ k i,
     inflight r !! k = Some (i, Starting) →
     match (execute_begin i r).2 with
     | Some job =>
         running (task_begins k r) = running r ∧
         inflight (task_begins k r) = <[k := (i, Awaiting job)]> (inflight r) ∧
         queue (task_begins k r) = queue r ∧
         launched (task_begins k r) = launched r
     | None =>
         match queue r with
         | [] =>
             running (task_begins k r) = running r - 1 ∧
             inflight (task_begins k r) = delete k (inflight r) ∧
             queue (task_begins k r) = [] ∧
             launched (task_begins k r) = launched r
         | next :: rest =>
             running (task_begins k r) = running r ∧
             inflight (task_begins k r) = delete k (inflight r) ++ [(next, Starting)] ∧
             queue (task_begins k r) = rest ∧
             launched (task_begins k r) = launched r ++ [next]
         end
     end).
Proof.
  intros r.
  assert (Hinv : queue_inv r) by (apply run_inv, new_runner_inv).
  destruct Hinv as (Hb & Hlen & Hfull & Hlog).
  assert (Hpos : ∀ k e, inflight r !! k = Some e → 1 ≤ running r).
  { intros k e Hk. apply lookup_lt_Some in Hk. lia. }
  split; [done|]. split; [done|]. split; [done|]. split; [done|].
  split; [intros fn; apply enqueue_spec|]. split; [|split].
  - intros k Hk. split; [by apply task_throws_settles|].
    apply settle_spec. lia.
  - intros k i job res jitter Hk.
    rewrite (task_responds_awaiting k i job res jitter r Hk), settle_repo.
    split; [done|].
    apply settle_effect; [apply execute_finish_queue | by eapply Hpos].
  - intros k i Hk. unfold task_begins. rewrite Hk.
    pose proof (execute_begin_queue i r) as Hq.
    destruct (execute_begin i r) as [r1 [job|]]; cbn [fst snd] in *.
    + unfold queue_state in Hq. injection Hq as Q1 Q2 Q3 Q4 Q5. simpl.
      by rewrite Q1, Q2, Q3, Q5.
    + apply settle_effect; [exact Hq | by eapply Hpos].
Qed.

Lemma queue_bounded_fifo_witness :
  let r := run accept_all [ModuleInit (fun _ => 2000); TaskBegins 0] (new_runner seven_due) in
  let r' := task_responds 0 (Response 200) 0 r in
  running r = 5 ∧ queue r = ["j6"; "j7"]%string ∧
  running r' = 5 ∧
  inflight r' = delete 0%nat (inflight r) ++ [("j6"%string, Starting)] ∧
  queue r' = ["j7"%string] ∧
  launched r' = ["j1"; "j2"; "j3"; "j4"; "j5"; "j6"]%string ∧
  task_throws 2 r = settle 2 r.
Proof.
  intros r r'.
  destruct (queue_bounded_fifo accept_all seven_due [ModuleInit (fun _ => 2000); TaskBegins 0])
    as (_ & _ & _ & _ & _ & Hthrow & Hresp & _).
  destruct (Hthrow 2%nat) as [Ht _]; [vm_compute; lia|].
  destruct (Hresp 0%nat "j1"%string (set_attempt_count 1 (set_status Running (due_job "j1")))
              (Response 200) 0 eq_refl) as [_ Hq].
  change (queue (run accept_all _ _)) with ["j6"; "j7"]%string in Hq.
  destruct Hq as (H1 & H2 & H3 & H4).
  split; [vm_compute; reflexivity|]. split; [vm_compute; reflexivity|].
  split; [exact H1|]. split; [exact H2|]. split; [exact H3|]. split; [exact H4 | exact Ht].
Defined.

(** ** Disarming *)

Lemma prefix_append a c : String.prefix a (a +:+ c) = true.
Proof.
  induction a as [|x a IH]; simpl.
  - by destruct c.
  - destruct (Ascii.ascii_dec x x); [exact IH | done].
Qed.

Lemma append_assoc_string a b c : (a +:+ b) +:+ c = a +:+ (b +:+ c).
Proof.
  induction a as [|x a IH]; [done|].
  change (String x ((a +:+ b) +:+ c) = String x (a +:+ (b +:+ c))). by rewrite IH.
Qed.

Lemma retry_key_prefix i attempt :
  String.prefix (i +:+ ":retry:") (retry_key i attempt) = true.
Proof.
  unfold retry_key. rewrite <- append_assoc_string. apply prefix_append.
Qed.

Lemma keys_of_map {V} (m : gmap string V) k :
  k ∈ (map_to_list m).*1 ↔ is_Some (m !! k).
Proof.
  rewrite list_elem_of_fmap. split.
  - intros ([k' v] & -> & H). apply elem_of_map_to_list in H. by exists v.
  - intros [v H]. exists (k, v). split; [done|]. by apply elem_of_map_to_list.
Qed.

Section ClearRetries.

Variable pre : string.

Lemma clear_retry_cron r key :
  cronJobs (clear_retry pre r key) = cronJobs r ∧
  cron_loop (clear_retry pre r key) = cron_loop r ∧
  next_handle (clear_retry pre r key) = next_handle r.
Proof.
  unfold clear_retry. destruct (String.prefix pre key); [|done].
  by destruct (timers r !! key).
Qed.

Lemma clear_retry_timers r key :
  timers (clear_retry pre r key) =
  if String.prefix pre key then delete key (timers r) else timers r.
Proof.
  unfold clear_retry. destruct (String.prefix pre key); [|done].
  by destruct (timers r !! key).
Qed.

Lemma clear_retry_event_loop_None r key h :
  event_loop r !! h = None → event_loop (clear_retry pre r key) !! h = None.
Proof.
  intros H. unfold clear_retry. destruct (String.prefix pre key); [|done].
  destruct (timers r !! key) as [rt|]; simpl; [|done].
  rewrite lookup_delete. by case_decide.
Qed.

Lemma clear_retries_event_loop_None keys r h :
  event_loop r !! h = None → event_loop (foldl (clear_retry pre) r keys) !! h = None.
Proof.
  apply (foldl_preserves (fun a => event_loop a !! h = None)).
  intros acc key. apply clear_retry_event_loop_None.
Qed.

Lemma clear_retries_cron keys r :
  cronJobs (foldl (clear_retry pre) r keys) = cronJobs r ∧
  cron_loop (foldl (clear_retry pre) r keys) = cron_loop r ∧
  next_handle (foldl (clear_retry pre) r keys) = next_handle r.
Proof.
  apply (foldl_preserves
           (fun a => cronJobs a = cronJobs r ∧ cron_loop a = cron_loop r
                     ∧ next_handle a = next_handle r)); [|done].
  intros acc key (H1 & H2 & H3).
  destruct (clear_retry_cron acc key) as (-> & -> & ->). done.
Qed.

Lemma clear_retries_timers keys r k :
  timers (foldl (clear_retry pre) r keys) !! k =
  if decide (k ∈ keys ∧ String.prefix pre k = true) then None else timers r !! k.
Proof.
  revert r. induction keys as [|key keys IH]; intros r; simpl.
  - done.
  - rewrite IH, clear_retry_timers.
    destruct (decide (k ∈ keys ∧ String.prefix pre k = true)) as [[Hin Hp]|Hn].
    + rewrite decide_True; [done|]. split; [by right | done].
    + destruct (decide (k = key)) as [->|Hne].
      * destruct (String.prefix pre key) eqn:Hp.
        -- rewrite lookup_delete_eq. rewrite decide_True; [done|]. split; [by left | done].
        -- rewrite decide_False; [done|]. intros [_ ?]. congruence.
      * rewrite decide_False.
        -- destruct (String.prefix pre key); [by rewrite lookup_delete_ne | done].
        -- intros [Hin Hp]. apply Hn. split; [|done].
           apply elem_of_cons in Hin as [?|?]; [done | done].
Qed.

Lemma clear_retries_cancel keys r k h :
  k ∈ keys → String.prefix pre k = true → timers r !! k = Some h →
  event_loop (foldl (clear_retry pre) r keys) !! h = None.
Proof.
  revert r. induction keys as [|key keys IH]; intros r Hin Hp Hk; simpl.
  - by apply elem_of_nil in Hin.
  - destruct (decide (k = key)) as [->|Hne].
    + apply clear_retries_event_loop_None.
      unfold clear_retry. rewrite Hp, Hk. simpl. apply lookup_delete_eq.
    + apply elem_of_cons in Hin as [?|Hin]; [done|].
      apply IH; [done | done |].
      rewrite clear_retry_timers. destruct (String.prefix pre key); [|done].
      by rewrite lookup_delete_ne.
Qed.

Lemma clear_retries_none keys r :
  (∀ k, k ∈ keys → String.prefix pre k = false) → foldl (clear_retry pre) r keys = r.
Proof.
  revert r. induction keys as [|key keys IH]; intros r H; simpl; [done|].
  unfold clear_retry at 2. rewrite (H key) by (by left).
  apply IH. intros k Hk. apply H. by right.
Qed.

End ClearRetries.

Lemma clear_main_spec i r :
  timers (clear_main i r) = delete i (timers r) ∧
  (∀ t, timers r !! i = Some t → event_loop (clear_main i r) !! t = None) ∧
  (∀ h, event_loop r !! h = None → event_loop (clear_main i r) !! h = None) ∧
  cronJobs (clear_main i r) = cronJobs r ∧ cron_loop (clear_main i r) = cron_loop r.
Proof.
  unfold clear_main. destruct (timers r !! i) as [t|] eqn:Ht; simpl.
  - split; [done|]. split; [|split; [|done]].
    + intros ? [= <-]. apply lookup_delete_eq.
    + intros h Hh. rewrite lookup_delete. by case_decide.
  - split; [by rewrite delete_id|]. done.
Qed.

Lemma stop_cron_spec i r :
  timers (stop_cron i r) = timers r ∧ event_loop (stop_cron i r) = event_loop r ∧
  cronJobs (stop_cron i r) !! i = None ∧
  (∀ task, cronJobs r !! i = Some task → cron_loop (stop_cron i r) !! task = None).
Proof.
  unfold stop_cron. destruct (cronJobs r !! i) as [task|] eqn:Hc; simpl.
  - split; [done|]. split; [done|]. split; [apply lookup_delete_eq|].
    intros ? [= <-]. apply lookup_delete_eq.
  - done.
Qed.

Lemma unscheduleJob_nothing_registered i r :
  timers r !! i = None →
  (∀ key, String.prefix (i +:+ ":retry:") key = true → timers r !! key = None) →
  cronJobs r !! i = None →
  unscheduleJob i r = r.
Proof.
  intros Ht Hretry Hc. unfold unscheduleJob, clear_main. rewrite Ht.
  unfold clear_retries. rewrite clear_retries_none.
  - unfold stop_cron. by rewrite Hc.
  - intros k Hk. apply keys_of_map in Hk.
    destruct (String.prefix (i +:+ ":retry:") k) eqn:Hp; [|done].
    rewrite (Hretry k Hp) in Hk. by destruct Hk.
Qed.

Lemma unscheduleJob_registry i r :
  timers (unscheduleJob i r) !! i = None ∧
  (∀ key, String.prefix (i +:+ ":retry:") key = true →
          timers (unscheduleJob i r) !! key = None) ∧
  cronJobs (unscheduleJob i r) !! i = None.
Proof.
  unfold unscheduleJob.
  destruct (clear_main_spec i r) as (Ht1 & _ & _ & Hc1 & _).
  set (r1 := clear_main i r) in *.
  destruct (stop_cron_spec i (clear_retries i r1)) as (Ht3 & _ & Hc3 & _).
  rewrite Ht3. unfold clear_retries. split; [|split].
  - rewrite clear_retries_timers. case_decide; [done|]. rewrite Ht1. apply lookup_delete_eq.
  - intros key Hp. rewrite clear_retries_timers. case_decide as Hd; [done|].
    destruct (timers r1 !! key) eqn:Hk; [|done].
    exfalso. apply Hd. split; [|done]. apply keys_of_map. by rewrite Hk.
  - exact Hc3.
Qed.

Lemma unscheduleJob_cancels i r :
  (∀ t, timers r !! i = Some t → event_loop (unscheduleJob i r) !! t = None) ∧
  (∀ key t, String.prefix (i +:+ ":retry:") key = true → timers r !! key = Some t →
            event_loop (unscheduleJob i r) !! t = None) ∧
  (∀ task, cronJobs r !! i = Some task → cron_loop (unscheduleJob i r) !! task = None).
Proof.
  unfold unscheduleJob.
  destruct (clear_main_spec i r) as (Ht1 & Hmain & Hkeep & Hc1 & Hl1).
  set (r1 := clear_main i r) in *.
  destruct (stop_cron_spec i (clear_retries i r1)) as (_ & He3 & _ & Hl3).
  rewrite He3. unfold clear_retries in *.
  set (keys := (map_to_list (timers r1)).*1) in *.
  destruct (clear_retries_cron (i +:+ ":retry:") keys r1) as (Hc2 & Hl2 & _).
  split; [|split].
  - intros t Ht. apply clear_retries_event_loop_None. by apply Hmain.
  - intros key t Hp Hk. destruct (decide (key = i)) as [->|Hne].
    + apply clear_retries_event_loop_None. by apply Hmain.
    + apply (clear_retries_cancel _ keys r1 key t); [|done|].
      * apply keys_of_map. rewrite Ht1, lookup_delete_ne by done. by rewrite Hk.
      * by rewrite Ht1, lookup_delete_ne.
  - intros task Hc. apply Hl3. by rewrite Hc2, Hc1.
Qed.

(** C9. [unscheduleJob(id)] removes from the registry the main timer of the
    id, every retry timer of the id (every key that starts with
    [id:retry:], which the retry keys do) and the cron task of the id, and
    cancels the timeouts and the cron task that were registered there. With
    nothing registered for the id it changes nothing, and a second call in a
    row leaves the state of the first. *)
Theorem unscheduleJob_idempotent i r :
  (timers (unscheduleJob i r) !! i = None ∧
   (∀ attempt, timers (unscheduleJob i r) !! retry_key i attempt = None) ∧
   cronJobs (unscheduleJob i r) !! i = None) ∧
  ((∀ t, timers r !! i = Some t → event_loop (unscheduleJob i r) !! t = None) ∧
   (∀ attempt t, timers r !! retry_key i attempt = Some t →
                 event_loop (unscheduleJob i r) !! t = None) ∧
   (∀ task, cronJobs r !! i = Some task → cron_loop (unscheduleJob i r) !! task = None)) ∧
  (timers r !! i = None →
   (∀ key, String.prefix (i +:+ ":retry:") key = true → timers r !! key = None) →
   cronJobs r !! i = None →
   unscheduleJob i r = r) ∧
  unscheduleJob i (unscheduleJob i r) = unscheduleJob i r.
Proof.
  destruct (unscheduleJob_registry i r) as (H1 & H2 & H3).
  destruct (unscheduleJob_cancels i r) as (H4 & H5 & H6).
  split; [|split; [|split]].
  - split; [done|]. split; [|done]. intros attempt. apply H2, retry_key_prefix.
  - split; [done|]. split; [|done]. intros attempt t. apply H5, retry_key_prefix.
  - apply unscheduleJob_nothing_registered.
  - by apply unscheduleJob_nothing_registered.
Qed.

Lemma unscheduleJob_idempotent_witness :
  timers fully_armed !! "job-s"%string = Some 0%nat ∧
  timers fully_armed !! retry_key "job-s" 1 = Some 1%nat ∧
  cronJobs fully_armed !! "job-s"%string = Some 2%nat ∧
  event_loop (unscheduleJob "job-s" fully_armed) !! 0%nat = None ∧
  event_loop (unscheduleJob "job-s" fully_armed) !! 1%nat = None ∧
  cron_loop (unscheduleJob "job-s" fully_armed) !! 2%nat = None ∧
  unscheduleJob "job-s" (new_runner []) = new_runner [].
Proof.
  destruct (unscheduleJob_idempotent "job-s" fully_armed)
    as (_ & (H1 & H2 & H3) & _ & _).
  destruct (unscheduleJob_idempotent "job-s" (new_runner []))
    as (_ & _ & H4 & _).
  split; [reflexivity|]. split; [reflexivity|]. split; [reflexivity|].
  split; [apply H1; reflexivity|].
  split; [apply (H2 1%nat); reflexivity|].
  split; [apply H3; reflexivity|].
  apply H4.
  - reflexivity.
  - intros key _. reflexivity.
  - reflexivity.
Defined.

(** ** Arming a one-off job *)

Lemma handles_fresh_next r :
  handles_fresh r →
  event_loop r !! next_handle r = None ∧ cron_loop r !! next_handle r = None.
Proof.
  intros [He Hc]. split.
  - destruct (event_loop r !! next_handle r) eqn:E; [|done].
    assert (next_handle r < next_handle r)%nat by (apply He; by rewrite E). lia.
  - destruct (cron_loop r !! next_handle r) eqn:E; [|done].
    assert (next_handle r < next_handle r)%nat by (apply Hc; by rewrite E). lia.
Qed.

Lemma scheduleOneOff_cases job now r :
  match Job.scheduling job ≫= execute_at with
  | None => scheduleOneOff job now r = r
  | Some runAt =>
      if decide (runAt ≤ now ∧ Job.status job = Scheduled) then
        scheduleOneOff job now r = enqueue (Job.id job) r
      else if decide (Z.max 0 (runAt - now) > MAX_TIMEOUT) then
        scheduleOneOff job now r =
          with_timer (Job.id job)
            {| delay := Z.min (Z.max 0 (runAt - now)) MAX_TIMEOUT; callback := Recheck job |} r
      else
        scheduleOneOff job now r =
          with_timer (Job.id job)
            {| delay := Z.max 0 (runAt - now);
               callback := Submit (Job.id job) (Job.id job) |} r
  end.
Proof.
  unfold scheduleOneOff. destruct (_ ≫= _) as [runAt|]; [|done].
  destruct (decide (runAt ≤ now ∧ Job.status job = Scheduled)) as [[H1 H2]|Hn].
  - rewrite (proj2 (Z.leb_le _ _) H1), bool_decide_eq_true_2 by done. done.
  - assert (Hdue : (runAt <=? now) && bool_decide (Job.status job = Scheduled) = false).
    { apply andb_false_iff. destruct (Z.leb_spec runAt now); [|by left].
      right. apply bool_decide_eq_false_2. intros ?. by apply Hn. }
    rewrite Hdue.
    destruct (decide (Z.max 0 (runAt - now) > MAX_TIMEOUT)) as [Hgt|Hle].
    + by rewrite (proj2 (Z.gtb_gt _ _) Hgt).
    + assert (Hf : (Z.max 0 (runAt - now) >? MAX_TIMEOUT) = false).
      { rewrite Z.gtb_ltb. apply Z.ltb_ge. lia. }
      by rewrite Hf.
Qed.

Lemma timer_fires_with_timer key p now r :
  event_loop r !! next_handle r = None →
  timer_fires (next_handle r) now (with_timer key p r) =
  match callback p with
  | Recheck job =>
      scheduleOneOff job now
        (set_timers (delete (Job.id job) (<[key := next_handle r]> (timers r)))
           (set_next_handle (S (next_handle r)) r))
  | Submit key' i =>
      enqueue i
        (set_timers (delete key' (<[key := next_handle r]> (timers r)))
           (set_next_handle (S (next_handle r)) r))
  end.
Proof.
  intros Hfresh. unfold timer_fires, with_timer. simpl.
  rewrite lookup_insert_eq, (delete_insert_id _ _ _ Hfresh).
  destruct r. by destruct (callback p).
Qed.

Lemma new_runner_fresh rows : handles_fresh (new_runner rows).
Proof. split; intros h [x Hx]; simpl in Hx; by rewrite lookup_empty in Hx. Qed.

Lemma fire_when_due_S n i now r t p :
  timers r !! i = Some t → event_loop r !! t = Some p →
  fire_when_due (S n) i now r =
  fire_when_due n i (now + delay p) (timer_fires t (now + delay p) r).
Proof. intros H1 H2. cbn [fire_when_due]. rewrite H1. simpl. by rewrite H2. Qed.

Lemma recheck_chain n : ∀ job now runAt r,
  Job.scheduling job ≫= execute_at = Some runAt →
  handles_fresh r →
  Z.of_nat n * MAX_TIMEOUT < runAt - now ≤ (Z.of_nat n + 1) * MAX_TIMEOUT →
  let res := fire_when_due n (Job.id job) now (scheduleOneOff job now r) in
  res.1 = now + Z.of_nat n * MAX_TIMEOUT ∧
  timers res.2 !! Job.id job = Some (next_handle r + n)%nat ∧
  event_loop res.2 !! (next_handle r + n)%nat =
    Some {| delay := runAt - res.1; callback := Submit (Job.id job) (Job.id job) |} ∧
  queue_state res.2 = queue_state r ∧ repo res.2 = repo r.
Proof.
  induction n as [|n IH]; intros job now runAt r Hat Hfresh Hrange.
  - pose proof (scheduleOneOff_cases job now r) as Hc. rewrite Hat in Hc.
    rewrite decide_False in Hc by (unfold MAX_TIMEOUT in *; lia).
    rewrite decide_False in Hc by (unfold MAX_TIMEOUT in *; lia).
    simpl. rewrite Hc. unfold with_timer. simpl.
    rewrite Nat.add_0_r, !lookup_insert_eq.
    replace (Z.max 0 (runAt - now)) with (runAt - now) by lia.
    split; [lia|]. by repeat split.
  - pose proof (scheduleOneOff_cases job now r) as Hc. rewrite Hat in Hc.
    rewrite decide_False in Hc by (unfold MAX_TIMEOUT in *; lia).
    rewrite decide_True in Hc by (unfold MAX_TIMEOUT in *; lia).
    destruct (handles_fresh_next r Hfresh) as [Hnone _].
    rewrite Hc.
    assert (Hreg : timers (with_timer (Job.id job)
                     {| delay := Z.min (Z.max 0 (runAt - now)) MAX_TIMEOUT;
                        callback := Recheck job |} r) !! Job.id job
                   = Some (next_handle r)) by (simpl; apply lookup_insert_eq).
    assert (Hev : event_loop (with_timer (Job.id job)
                     {| delay := Z.min (Z.max 0 (runAt - now)) MAX_TIMEOUT;
                        callback := Recheck job |} r) !! next_handle r
                   = Some {| delay := Z.min (Z.max 0 (runAt - now)) MAX_TIMEOUT;
                             callback := Recheck job |}) by (simpl; apply lookup_insert_eq).
    rewrite (fire_when_due_S _ _ _ _ _ _ Hreg Hev). cbn [delay].
    rewrite (timer_fires_with_timer _ _ _ _ Hnone). cbn [callback].
    replace (Z.min (Z.max 0 (runAt - now)) MAX_TIMEOUT) with MAX_TIMEOUT
      by (unfold MAX_TIMEOUT in *; lia).
    match goal with |- context [scheduleOneOff job _ ?r0] => set (rmid := r0) end.
    assert (Hmid : handles_fresh rmid).
    { destruct Hfresh as [He Hcr]. split; intros h Hh; simpl in *.
      - specialize (He h Hh). lia.
      - specialize (Hcr h Hh). lia. }
    destruct (IH job (now + MAX_TIMEOUT) runAt rmid Hat Hmid) as (H1 & H2 & H3 & H4 & H5).
    { unfold MAX_TIMEOUT in *. lia. }
    replace (next_handle r + S n)%nat with (next_handle rmid + n)%nat by (simpl; lia).
    split; [rewrite H1; lia|]. split; [exact H2|]. split; [exact H3|].
    split; [by rewrite H4 | by rewrite H5].
Qed.

(** C8, as the code has it. Arming a one-off job reads [execute_at] and
    the clock. Without [execute_at] nothing is armed. A job that is due
    ([execute_at <= now]) and [scheduled] is handed to the queue at once and
    no wait is scheduled. In every other case, with
    [delay = max(0, execute_at - now)], one timeout is registered under the
    job id: when [delay] exceeds [MAX_TIMEOUT], a wake-up after
    [min(delay, MAX_TIMEOUT)] whose firing only removes the registry entry
    and arms the job again, and a chain of such wake-ups, each fired when
    due, ends with an execution timer that is due exactly at [execute_at];
    otherwise a wait of exactly [delay] whose firing removes the registry
    entry and submits the job. *)
Theorem scheduleOneOff_arming job now r :
  handles_fresh r →
  let t := next_handle r in
  let r' := scheduleOneOff job now r in
  match Job.scheduling job ≫= execute_at with
  | None => r' = r
  | Some runAt =>
      let delay := Z.max 0 (runAt - now) in
      if decide (runAt ≤ now ∧ Job.status job = Scheduled) then
        r' = enqueue (Job.id job) r
      else
        timers r' = <[Job.id job := t]> (timers r) ∧
        queue_state r' = queue_state r ∧
        if decide (delay > MAX_TIMEOUT) then
          event_loop r' =
            <[t := {| delay := Z.min delay MAX_TIMEOUT; callback := Recheck job |}]>
              (event_loop r) ∧
          (∀ now', timer_fires t now' r' =
                   scheduleOneOff job now'
                     (set_timers (delete (Job.id job) (timers r))
                        (set_next_handle (S t) r))) ∧
          (∃ n, let res := fire_when_due n (Job.id job) now r' in
                ∃ t', timers res.2 !! Job.id job = Some t' ∧
                      event_loop res.2 !! t' =
                        Some {| delay := runAt - res.1;
                                callback := Submit (Job.id job) (Job.id job) |} ∧
                      0 < runAt - res.1 ≤ MAX_TIMEOUT ∧
                      queue_state res.2 = queue_state r)
        else
          event_loop r' =
            <[t := {| delay := delay; callback := Submit (Job.id job) (Job.id job) |}]>
              (event_loop r) ∧
          (∀ now', timer_fires t now' r' =
                   enqueue (Job.id job)
                     (set_timers (delete (Job.id job) (timers r))
                        (set_next_handle (S t) r)))
  end.
Proof.
  intros Hfresh t r'.
  pose proof (scheduleOneOff_cases job now r) as Hc.
  destruct (handles_fresh_next r Hfresh) as [Hnone _].
  destruct (Job.scheduling job ≫= execute_at) as [runAt|] eqn:Hat; [|exact Hc].
  cbv zeta. destruct (decide (runAt ≤ now ∧ Job.status job = Scheduled)); [exact Hc|].
  destruct (decide (Z.max 0 (runAt - now) > MAX_TIMEOUT)) as [Hgt|Hle].
  - unfold r'. rewrite Hc. split; [done|]. split; [done|]. split; [done|]. split.
    + intros now'. rewrite (timer_fires_with_timer _ _ _ _ Hnone). cbn [callback].
      by rewrite delete_insert_eq.
    + exists (Z.to_nat ((runAt - now - 1) / MAX_TIMEOUT)).
      assert (Hn : Z.of_nat (Z.to_nat ((runAt - now - 1) / MAX_TIMEOUT)) * MAX_TIMEOUT
                   < runAt - now
                   ≤ (Z.of_nat (Z.to_nat ((runAt - now - 1) / MAX_TIMEOUT)) + 1) * MAX_TIMEOUT).
      { assert (0 < MAX_TIMEOUT) by done.
        assert (0 ≤ (runAt - now - 1) / MAX_TIMEOUT) by (apply Z.div_pos; lia).
        rewrite Z2Nat.id by done.
        pose proof (Z.mul_div_le (runAt - now - 1) MAX_TIMEOUT).
        pose proof (Z.mul_succ_div_gt (runAt - now - 1) MAX_TIMEOUT). lia. }
      rewrite <- Hc.
      destruct (recheck_chain _ job now runAt r Hat Hfresh Hn) as (H1 & H2 & H3 & H4 & _).
      cbv zeta. eexists. split; [exact H2|]. split; [exact H3|]. split; [|exact H4].
      rewrite H1. lia.
  - unfold r'. rewrite Hc. split; [done|]. split; [done|]. split; [done|].
    intros now'. rewrite (timer_fires_with_timer _ _ _ _ Hnone). cbn [callback].
    by rewrite delete_insert_eq.
Qed.

(** The claim as worded fails on a job that is due and [scheduled]: no wait
    of [delay = 0] is scheduled for it, the event loop stays empty and the
    job is in flight at once. *)
Lemma due_scheduled_job_gets_no_timer :
  let r' := scheduleOneOff job_a 2000 (new_runner [job_a]) in
  Z.max 0 (1000 - 2000) = 0 ∧
  event_loop r' !! next_handle (new_runner [job_a]) ≠
    Some {| delay := 0; callback := Submit "job-a" "job-a" |} ∧
  event_loop r' = ∅ ∧ timers r' = ∅ ∧
  inflight r' = [("job-a"%string, Starting)].
Proof. vm_compute. repeat split; done. Qed.

Lemma scheduleOneOff_arming_witness :
  let r' := scheduleOneOff job_far 0 (new_runner [job_far]) in
  timers r' = {[ "job-f"%string := 0%nat ]} ∧
  event_loop r' = {[ 0%nat := {| delay := 2147483647; callback := Recheck job_far |} ]} ∧
  timer_fires 0 2147483647 r' =
    scheduleOneOff job_far 2147483647
      (set_timers ∅ (set_next_handle 1 (new_runner [job_far]))).
Proof.
  pose proof (scheduleOneOff_arming job_far 0 (new_runner [job_far])
                (new_runner_fresh [job_far])) as H.
  cbv zeta in H. change (Job.scheduling job_far ≫= execute_at) with (Some 5184000000) in H.
  cbv beta iota in H.
  rewrite decide_False in H by (intros [? _]; lia).
  rewrite decide_True in H by (vm_compute; reflexivity).
  destruct H as (H1 & _ & H2 & H3 & _).
  intros r'. split; [exact H1|]. split; [exact H2|]. exact (H3 2147483647).
Defined.

(** ** Handles are never reused *)

Lemma handles_fresh_sub r r' :
  (∀ h, is_Some (event_loop r' !! h) → is_Some (event_loop r !! h)) →
  (∀ h, is_Some (cron_loop r' !! h) → is_Some (cron_loop r !! h)) →
  (next_handle r ≤ next_handle r')%nat →
  handles_fresh r → handles_fresh r'.
Proof.
  intros He Hc Hn [H1 H2]. split; intros h Hh.
  - specialize (H1 h (He h Hh)). lia.
  - specialize (H2 h (Hc h Hh)). lia.
Qed.

Lemma handles_fresh_frame r r' :
  event_loop r' = event_loop r → cron_loop r' = cron_loop r →
  next_handle r' = next_handle r →
  handles_fresh r → handles_fresh r'.
Proof.
  intros He Hc Hn. apply handles_fresh_sub; rewrite ?He, ?Hc, ?Hn; done.
Qed.

Lemma clearTimeout_fresh t r : handles_fresh r → handles_fresh (clearTimeout t r).
Proof.
  apply handles_fresh_sub; simpl; [|done|done].
  intros h. rewrite lookup_delete. by case_decide; [intros [? ?]|].
Qed.

Lemma stop_fresh task r : handles_fresh r → handles_fresh (stop task r).
Proof.
  apply handles_fresh_sub; simpl; [done| |done].
  intros h. rewrite lookup_delete. by case_decide; [intros [? ?]|].
Qed.

Lemma set_timers_fresh x r : handles_fresh r → handles_fresh (set_timers x r).
Proof. by apply handles_fresh_frame. Qed.

Lemma set_cronJobs_fresh x r : handles_fresh r → handles_fresh (set_cronJobs x r).
Proof. by apply handles_fresh_frame. Qed.

Lemma with_timer_fresh key p r : handles_fresh r → handles_fresh (with_timer key p r).
Proof.
  intros [H1 H2]. split; intros h Hh; simpl in *.
  - rewrite lookup_insert in Hh. case_decide; [lia|]. specialize (H1 h Hh). lia.
  - specialize (H2 h Hh). lia.
Qed.

Lemma enqueue_fresh fn r : handles_fresh r → handles_fresh (enqueue fn r).
Proof.
  destruct (enqueue_registry fn r) as (_ & _ & He & Hc & Hn). by apply handles_fresh_frame.
Qed.

Lemma _taskDone_fresh r : handles_fresh r → handles_fresh (_taskDone r).
Proof.
  destruct (_taskDone_registry r) as (_ & _ & He & Hc & Hn). by apply handles_fresh_frame.
Qed.

Lemma settle_fresh k r : handles_fresh r → handles_fresh (settle k r).
Proof. intros H. unfold settle. apply _taskDone_fresh. by eapply handles_fresh_frame. Qed.

Lemma scheduleOneOff_fresh job now r :
  handles_fresh r → handles_fresh (scheduleOneOff job now r).
Proof.
  intros H. pose proof (scheduleOneOff_cases job now r) as Hc.
  destruct (Job.scheduling job ≫= execute_at) as [runAt|]; [|by rewrite Hc].
  destruct (decide _); [rewrite Hc; by apply enqueue_fresh|].
  destruct (decide _); rewrite Hc; by apply with_timer_fresh.
Qed.

Lemma scheduleRecurring_fresh ca job r :
  handles_fresh r → handles_fresh (scheduleRecurring ca job r).
Proof.
  intros [H1 H2]. unfold scheduleRecurring. destruct (truthy _) as [e|]; [|done].
  destruct (ca _ _); [|done]. split; intros h Hh; simpl in *.
  - specialize (H1 h Hh). lia.
  - rewrite lookup_insert in Hh. case_decide; [lia|]. specialize (H2 h Hh). lia.
Qed.

Lemma scheduleNewJob_fresh ca job now r :
  handles_fresh r → handles_fresh (scheduleNewJob ca job now r).
Proof.
  intros H. unfold scheduleNewJob.
  destruct (Job.type job); [by apply scheduleOneOff_fresh | by apply scheduleRecurring_fresh].
Qed.

Lemma execute_begin_fresh_handles i r : handles_fresh r → handles_fresh (execute_begin i r).1.
Proof.
  intros H. unfold execute_begin. destruct (findOneBy i (repo r)) as [job|]; [|done].
  case_bool_decide; [done|]. by eapply handles_fresh_frame.
Qed.

Lemma execute_finish_fresh job res jitter r :
  handles_fresh r → handles_fresh (execute_finish job res jitter r).
Proof.
  intros H. unfold execute_finish. destruct (success res).
  - by eapply handles_fresh_frame.
  - destruct (_ && _).
    + match goal with |- handles_fresh (let '(_, _) := setTimeout ?cb ?d ?r0 in _) =>
        change (handles_fresh
                  (with_timer (retry_key (Job.id job) (Job.attempt_count job))
                     {| delay := d; callback := cb |} r0))
      end.
      apply with_timer_fresh. by eapply handles_fresh_frame.
    + by eapply handles_fresh_frame.
Qed.

Lemma unscheduleJob_fresh i r : handles_fresh r → handles_fresh (unscheduleJob i r).
Proof.
  intros H. unfold unscheduleJob.
  assert (H1 : handles_fresh (clear_main i r)).
  { unfold clear_main. destruct (timers r !! i); [|done].
    by apply set_timers_fresh, clearTimeout_fresh. }
  assert (H2 : handles_fresh (clear_retries i (clear_main i r))).
  { unfold clear_retries. apply foldl_preserves; [|done].
    intros acc key Hacc. unfold clear_retry. destruct (String.prefix _ key); [|done].
    apply set_timers_fresh. destruct (timers acc !! key); [by apply clearTimeout_fresh | done]. }
  unfold stop_cron. destruct (cronJobs _ !! i); [|done].
  by apply set_cronJobs_fresh, stop_fresh.
Qed.

Lemma unscheduleAll_fresh r : handles_fresh r → handles_fresh (unscheduleAll r).
Proof.
  intros H. unfold unscheduleAll. apply foldl_preserves.
  - intros acc it Hacc. by apply set_cronJobs_fresh, stop_fresh.
  - apply foldl_preserves; [|done].
    intros acc kt Hacc. by apply set_timers_fresh, clearTimeout_fresh.
Qed.

Lemma onModuleDestroy_fresh r : handles_fresh r → handles_fresh (onModuleDestroy r).
Proof.
  intros H. unfold onModuleDestroy. apply foldl_preserves.
  - intros acc it Hacc. by apply stop_fresh.
  - apply foldl_preserves; [|done]. intros acc kt Hacc. by apply clearTimeout_fresh.
Qed.

Lemma timer_fires_fresh t now r : handles_fresh r → handles_fresh (timer_fires t now r).
Proof.
  intros H. unfold timer_fires. destruct (event_loop r !! t) as [p|]; [|done].
  assert (H0 : handles_fresh (set_event_loop (delete t (event_loop r)) r))
    by (by apply (clearTimeout_fresh t)).
  destruct (callback p).
  - by apply scheduleOneOff_fresh, set_timers_fresh.
  - by apply enqueue_fresh, set_timers_fresh.
Qed.

Lemma step_fresh ca r e : handles_fresh r → handles_fresh (step ca r e).
Proof.
  intros H. destruct e; simpl.
  - unfold onModuleInit. apply foldl_preserves; [|done].
    intros acc job Hacc. by apply scheduleNewJob_fresh.
  - by apply onModuleDestroy_fresh.
  - by apply scheduleNewJob_fresh.
  - by apply unscheduleJob_fresh.
  - by apply unscheduleAll_fresh.
  - by apply timer_fires_fresh.
  - unfold cron_ticks. destruct (cron_loop r !! task); [by apply enqueue_fresh | done].
  - unfold task_begins. destruct (inflight r !! k) as [[i [|job]]|]; [|done|done].
    pose proof (execute_begin_fresh_handles i r H) as Hb.
    destruct (execute_begin i r) as [r1 [job1|]]; simpl in Hb.
    + by eapply handles_fresh_frame.
    + by apply settle_fresh.
  - unfold task_responds. destruct (inflight r !! k) as [[i [|job]]|]; [done| |done].
    by apply settle_fresh, execute_finish_fresh.
  - unfold task_throws. destruct (inflight r !! k); [by apply settle_fresh | done].
Qed.

(** In every state the service can reach, no pending timeout and no started
    cron task has a handle that is still to be handed out. *)
Lemma run_fresh ca evs rows : handles_fresh (run ca evs (new_runner rows)).
Proof.
  unfold run. apply foldl_preserves; [|apply new_runner_fresh].
  intros acc e. apply step_fresh.
Qed.

(** ** A past one-off job that is armed again *)

(** C10, as the code has it. A one-off job whose [execute_at] has passed and
    whose status is neither [scheduled] nor [running] (so [completed],
    [failed] or [paused]) is armed, as [onModuleInit] does for every row,
    with a zero-delay timer under its id; the firing of that timer submits
    the job, and the [execute] so submitted marks the stored row [running]
    and counts one more attempt. *)
Theorem past_oneoff_runs_again ca job now now' runAt r :
  Job.type job = Oneoff →
  Job.scheduling job ≫= execute_at = Some runAt →
  runAt ≤ now →
  Job.status job ≠ Scheduled →
  Job.status job ≠ Running →
  findOneBy (Job.id job) (repo r) = Some job →
  handles_fresh r →
  let t := next_handle r in
  let r1 := scheduleNewJob ca job now r in
  let r2 := timer_fires t now' r1 in
  let job' := set_attempt_count (Job.attempt_count job + 1) (set_status Running job) in
  timers r1 !! Job.id job = Some t ∧
  event_loop r1 !! t = Some {| delay := 0; callback := Submit (Job.id job) (Job.id job) |} ∧
  r2 = enqueue (Job.id job)
         (set_timers (delete (Job.id job) (timers r)) (set_next_handle (S t) r)) ∧
  submitted r2 = submitted r ++ [Job.id job] ∧
  execute_begin (Job.id job) r2 = (set_repo (save job' (repo r)) r2, Some job') ∧
  findOneBy (Job.id job) (repo (execute_begin (Job.id job) r2).1) = Some job'.
Proof.
  intros Hty Hat Hpast Hns Hnr Hrow Hfresh t r1 r2 job'.
  destruct (handles_fresh_next r Hfresh) as [Hnone _].
  pose proof (scheduleOneOff_cases job now r) as Hc. rewrite Hat in Hc.
  rewrite decide_False in Hc by (by intros [_ ?]).
  rewrite decide_False in Hc by (unfold MAX_TIMEOUT; lia).
  replace (Z.max 0 (runAt - now)) with 0 in Hc by lia.
  assert (Hr1 : r1 = with_timer (Job.id job)
                       {| delay := 0; callback := Submit (Job.id job) (Job.id job) |} r).
  { unfold r1, scheduleNewJob. by rewrite Hty. }
  assert (Hr2 : r2 = enqueue (Job.id job)
                       (set_timers (delete (Job.id job) (timers r))
                          (set_next_handle (S t) r))).
  { unfold r2. rewrite Hr1, (timer_fires_with_timer _ _ _ _ Hnone). cbn [callback].
    by rewrite delete_insert_eq. }
  assert (Hrepo : repo r2 = repo r) by (by rewrite Hr2, enqueue_repo).
  assert (Hb : execute_begin (Job.id job) r2 = (set_repo (save job' (repo r)) r2, Some job')).
  { rewrite <- Hrepo. apply execute_begin_fresh; [by rewrite Hrepo | done]. }
  split; [rewrite Hr1; apply lookup_insert_eq|].
  split; [rewrite Hr1; apply lookup_insert_eq|].
  split; [exact Hr2|]. split; [|split; [exact Hb|]].
  - rewrite Hr2. unfold enqueue. simpl. by destruct (_ <? _).
  - rewrite Hb. simpl. exact (findOneBy_save_eq job' _).
Qed.

(** The claim as worded fails on a status that is not [scheduled] but
    [running]: the zero-delay timer is registered and its firing submits the
    job, but the [execute] so submitted returns at its guard, and the
    attempt count stays what it was. *)
Lemma past_running_job_is_skipped :
  let r1 := run accept_all [ModuleInit (fun _ => 2000)] (new_runner [job_stuck]) in
  let r3 := run accept_all [TimerFires 0 2000; TaskBegins 0] r1 in
  Job.status job_stuck ≠ Scheduled ∧
  event_loop r1 !! 0%nat = Some {| delay := 0; callback := Submit "job-r" "job-r" |} ∧
  launched r3 = ["job-r"%string] ∧
  findOneBy "job-r" (repo r3) = Some job_stuck ∧
  Job.attempt_count <$> findOneBy "job-r" (repo r3) ≠ Some (Job.attempt_count job_stuck + 1)%nat.
Proof. vm_compute. repeat split; done. Qed.

Lemma past_oneoff_runs_again_witness :
  let r1 := scheduleNewJob accept_all job_done 2000 (new_runner [job_done]) in
  let r2 := timer_fires 0 2001 r1 in
  event_loop r1 !! 0%nat = Some {| delay := 0; callback := Submit "job-d" "job-d" |} ∧
  findOneBy "job-d" (repo (execute_begin "job-d" r2).1) =
    Some (Job.mk "job-d" Oneoff (Some at_1000) None Running 1 None).
Proof.
  destruct (past_oneoff_runs_again accept_all job_done 2000 2001 1000 (new_runner [job_done]))
    as (_ & H2 & _ & _ & _ & H6).
  - reflexivity.
  - reflexivity.
  - lia.
  - discriminate.
  - discriminate.
  - reflexivity.
  - apply new_runner_fresh.
  - split; [exact H2 | exact H6].
Defined.

(** ** A job left [running] *)

Lemma stuck_frame i job r r' :
  repo r' = repo r → inflight r' = inflight r →
  stuck_running i job r → stuck_running i job r'.
Proof. unfold stuck_running, no_copy_in_flight. by intros -> ->. Qed.

Lemma stuck_queue_frame i job r r' :
  queue_state r' = queue_state r ∧ repo r' = repo r →
  stuck_running i job r → stuck_running i job r'.
Proof.
  intros [Hq Hr]. apply stuck_frame; [done|]. by apply queue_state_inflight.
Qed.

Lemma launch_stuck i job fn r : stuck_running i job r → stuck_running i job (launch fn r).
Proof.
  unfold stuck_running, no_copy_in_flight, launch. simpl. intros (H1 & H2 & H3).
  split; [done|]. split; [done|]. apply Forall_app. split; [done|].
  by apply Forall_singleton.
Qed.

Lemma enqueue_stuck i job fn r : stuck_running i job r → stuck_running i job (enqueue fn r).
Proof.
  intros H. unfold enqueue. destruct (_ <? _).
  - apply launch_stuck. by eapply stuck_frame.
  - by eapply stuck_frame.
Qed.

Lemma settle_stuck i job k r : stuck_running i job r → stuck_running i job (settle k r).
Proof.
  intros (H1 & H2 & H3).
  assert (H0 : stuck_running i job (set_inflight (delete k (inflight r)) r)).
  { split; [done|]. split; [done|]. unfold no_copy_in_flight. simpl. by apply Forall_delete. }
  unfold settle, _taskDone.
  set (r0 := set_inflight (delete k (inflight r)) r) in *.
  destruct (queue (set_running _ r0)) as [|next rest] eqn:Hq.
  - by eapply stuck_frame.
  - apply launch_stuck. by eapply stuck_frame.
Qed.

Lemma scheduleNewJob_stuck ca i job job0 now r :
  stuck_running i job r → stuck_running i job (scheduleNewJob ca job0 now r).
Proof.
  intros H. unfold scheduleNewJob. destruct (Job.type job0).
  - destruct (scheduleOneOff_queue job0 now r) as [->|Hf].
    + by apply enqueue_stuck.
    + by eapply stuck_queue_frame.
  - eapply stuck_queue_frame; [|done].
    split; [apply scheduleRecurring_queue | apply scheduleRecurring_repo].
Qed.

Lemma timer_fires_stuck i job t now r :
  stuck_running i job r → stuck_running i job (timer_fires t now r).
Proof.
  intros H. unfold timer_fires. destruct (event_loop r !! t) as [p|]; [|done].
  destruct (callback p) as [job0|key i0].
  - match goal with |- stuck_running _ _ (scheduleOneOff _ _ ?r0) =>
      assert (H0 : stuck_running i job r0) by (by eapply stuck_frame);
      destruct (scheduleOneOff_queue job0 now r0) as [->|Hf]
    end.
    + by apply enqueue_stuck.
    + by eapply stuck_queue_frame.
  - apply enqueue_stuck. by eapply stuck_frame.
Qed.

Lemma execute_finish_other_row i job res jitter r :
  Job.id job ≠ i →
  findOneBy i (repo (execute_finish job res jitter r)) = findOneBy i (repo r).
Proof.
  intros Hne. unfold execute_finish. destruct (success res); simpl.
  - by rewrite findOneBy_save_ne.
  - destruct (_ && _); simpl.
    + by rewrite findOneBy_save_ne.
    + by rewrite !findOneBy_save_ne.
Qed.

Lemma task_begins_stuck i job k r :
  stuck_running i job r → stuck_running i job (task_begins k r).
Proof.
  intros H. unfold task_begins.
  destruct (inflight r !! k) as [[i0 [|job0]]|] eqn:Hk; [|done|done].
  unfold execute_begin.
  destruct (findOneBy i0 (repo r)) as [row|] eqn:Hrow; [|by apply settle_stuck].
  case_bool_decide as Hst; [by apply settle_stuck|].
  destruct H as (H1 & H2 & H3).
  pose proof (findOneBy_id _ _ _ Hrow) as Hid.
  assert (Hne : i ≠ i0).
  { intros <-. rewrite H1 in Hrow. injection Hrow as <-. done. }
  split; [|split; [done|]].
  - simpl. rewrite findOneBy_save_ne; [done|]. simpl. congruence.
  - unfold no_copy_in_flight. simpl. apply Forall_insert; [done|]. simpl. congruence.
Qed.

Lemma task_responds_stuck i job k res jitter r :
  stuck_running i job r → stuck_running i job (task_responds k res jitter r).
Proof.
  intros H. unfold task_responds.
  destruct (inflight r !! k) as [[i0 [|job0]]|] eqn:Hk; [done| |done].
  apply settle_stuck. destruct H as (H1 & H2 & H3).
  assert (Hne : Job.id job0 ≠ i).
  { unfold no_copy_in_flight in H3. rewrite Forall_lookup in H3.
    exact (H3 k _ Hk). }
  split; [|split; [done|]].
  - by rewrite execute_finish_other_row.
  - unfold no_copy_in_flight.
    by rewrite (queue_state_inflight _ _ (execute_finish_queue job0 res jitter r)).
Qed.

Lemma step_stuck ca i job r e : stuck_running i job r → stuck_running i job (step ca r e).
Proof.
  intros H. destruct e; simpl.
  - unfold onModuleInit. apply foldl_preserves; [|done].
    intros acc job0 Hacc. by apply scheduleNewJob_stuck.
  - eapply stuck_queue_frame; [apply onModuleDestroy_frame | done].
  - by apply scheduleNewJob_stuck.
  - eapply stuck_queue_frame; [apply unscheduleJob_frame | done].
  - eapply stuck_queue_frame; [apply unscheduleAll_frame | done].
  - by apply timer_fires_stuck.
  - unfold cron_ticks. destruct (cron_loop r !! task); [by apply enqueue_stuck | done].
  - by apply task_begins_stuck.
  - by apply task_responds_stuck.
  - unfold task_throws. destruct (inflight r !! k); [by apply settle_stuck | done].
Qed.

Lemma run_stuck ca i job evs r : stuck_running i job r → stuck_running i job (run ca evs r).
Proof. unfold run. apply foldl_preserves. intros acc e. apply step_stuck. Qed.

(** ** The retry cycle *)

(** What a single failed attempt decides is as specified when the budget is
    spent or the status is not retryable: the job is persisted [failed]. *)
Lemma execute_failure_exhausted i job res jitter r :
  findOneBy i (repo r) = Some job →
  Job.status job ≠ Running →
  success res = false →
  (retries_maxAttempts job ≤ Z.of_nat (Job.attempt_count job + 1) ∨ isRetryable job res = false) →
  Job.status <$> findOneBy i (repo (execute i res jitter r)) = Some Failed ∧
  event_loop (execute i res jitter r) = event_loop r.
Proof.
  intros Hfind Hst Hs Hno.
  unfold execute. rewrite (execute_begin_fresh _ _ _ Hfind Hst).
  set (job1 := set_attempt_count _ _).
  assert (He : retries_enabled job1
               && (Z.of_nat (Job.attempt_count job1) <? retries_maxAttempts job1)
               && isRetryable job1 res = false).
  { change (retries_maxAttempts job1) with (retries_maxAttempts job).
    change (isRetryable job1 res) with (isRetryable job res).
    change (Job.attempt_count job1) with (Job.attempt_count job + 1)%nat.
    destruct Hno as [Hmax| ->]; [|by rewrite andb_false_r].
    rewrite (proj2 (Z.ltb_ge _ _) Hmax). by rewrite andb_false_r. }
  destruct (execute_finish_failed job1 res jitter
              (set_repo (save job1 (repo r)) r) Hs He) as (Hrepo & _ & Hev & _).
  rewrite Hrepo, Hev. split; [|done].
  pose proof (findOneBy_id _ _ _ Hfind) as Hid. subst i.
  by rewrite (findOneBy_save_eq (set_status Failed (set_last_error _ job1)) _).
Qed.

(** With a jitter in [0, base), the retry delay lies in
    [2^attempt * base, 2^attempt * base + base). *)
Lemma retry_delay_bounds attempt jitter :
  0 ≤ jitter < base →
  2 ^ Z.of_nat attempt * base ≤ 2 ^ Z.of_nat attempt * base + jitter
  < 2 ^ Z.of_nat attempt * base + base.
Proof. lia. Qed.

(** Within [setTimeout]'s range, that is up to attempt 21, the retry delay
    is at most [MAX_TIMEOUT]; from attempt 22 on it exceeds [MAX_TIMEOUT],
    the limit that [scheduleOneOff] guards against and [execute] does not. *)
Lemma retry_delay_within_limit attempt jitter :
  (attempt ≤ 21)%nat → 0 ≤ jitter < base →
  2 ^ Z.of_nat attempt * base + jitter ≤ MAX_TIMEOUT.
Proof.
  intros Ha Hj. unfold base, MAX_TIMEOUT in *.
  assert (2 ^ Z.of_nat attempt ≤ 2 ^ 21) by (apply Z.pow_le_mono_r; lia).
  change (2 ^ 21) with 2097152 in *. lia.
Qed.

Lemma retry_delay_exceeds_limit attempt jitter :
  (22 ≤ attempt ≤ 43)%nat → 0 ≤ jitter < base →
  MAX_TIMEOUT < 2 ^ Z.of_nat attempt * base + jitter < 2 ^ 53.
Proof.
  intros Ha Hj. unfold base, MAX_TIMEOUT in *.
  assert (2 ^ 22 ≤ 2 ^ Z.of_nat attempt) by (apply Z.pow_le_mono_r; lia).
  assert (2 ^ Z.of_nat attempt ≤ 2 ^ 43) by (apply Z.pow_le_mono_r; lia).
  change (2 ^ 22) with 4194304 in *. change (2 ^ 43) with 8796093022208 in *.
  change (2 ^ 53) with 9007199254740992. lia.
Qed.

(** C3, as the code has it. After a failure that is retry-eligible the
    retry timer is armed; for a jitter in [0, base) and up to attempt 21,
    where the delay is exact in the source's arithmetic and within
    [setTimeout]'s range, its delay is [2^attempt_count * base + jitter]
    with [base = 1000]. But the row is left [running], and from then on,
    whatever the service and the platform do (timers firing, cron ticks,
    tasks starting, responding or throwing, jobs armed or disarmed), the row
    stays as it is: the job is never attempted again, its attempt count
    never reaches [max_attempts], and its status never becomes [failed]. *)
Theorem retried_job_stays_running ca i job res jitter evs r :
  findOneBy i (repo r) = Some job →
  Job.status job ≠ Running →
  no_copy_in_flight i r →
  success res = false →
  retries_enabled job = true →
  Z.of_nat (Job.attempt_count job + 1) < retries_maxAttempts job →
  isRetryable job res = true →
  let r' := execute i res jitter r in
  let attempt := (Job.attempt_count job + 1)%nat in
  (0 ≤ jitter < base → (attempt ≤ 21)%nat →
   ∃ d, event_loop r' !! next_handle r =
          Some {| delay := d; callback := Submit (retry_key i attempt) i |} ∧
        d = 2 ^ Z.of_nat attempt * 1000 + jitter ∧
        2 ^ Z.of_nat attempt * 1000 ≤ d < 2 ^ Z.of_nat attempt * 1000 + 1000 ∧
        d ≤ MAX_TIMEOUT) ∧
  ∃ job', findOneBy i (repo (run ca evs r')) = Some job' ∧
          Job.status job' = Running ∧
          Job.status job' ≠ Failed ∧
          Job.attempt_count job' = attempt ∧
          Z.of_nat (Job.attempt_count job') < retries_maxAttempts job.
Proof.
  intros Hfind Hst Hcopy Hs Hen Hlt Hre r' attempt.
  destruct (execute_retry_leaves_running_aux i job res jitter r Hfind Hst Hs Hen Hlt Hre)
    as (Hev & Hrow & Hin).
  split.
  - intros Hj Ha. eexists. split; [exact Hev|]. split; [done|].
    pose proof (retry_delay_within_limit attempt jitter Ha Hj) as Hmax.
    unfold base in *. fold attempt. split; [lia | exact Hmax].
  - eexists. split.
    + apply (run_stuck ca i _ evs r'). split; [exact Hrow|]. split; [done|].
      unfold no_copy_in_flight. fold r' in Hin. by rewrite Hin.
    + simpl. repeat split; [done | exact Hlt].
Qed.

(** Scenario C of the specification ([max_attempts = 2], the target always
    answers 503): after the first attempt the retry timer fires and its
    task runs, and the job is [running] with one attempt, nothing is
    pending any more, and no second attempt was made. *)
Lemma scenario_C_never_fails :
  let r := run accept_all
             [NewJob job_c 2000; TaskBegins 0; TaskResponds 0 (Response 503) 7;
              TimerFires 0 5000; TaskBegins 0]
             (new_runner [job_c]) in
  findOneBy "job-c" (repo r) =
    Some (Job.mk "job-c" Oneoff (Some at_1000) (Some retry_2_503) Running 1
            (Some "status:503"%string)) ∧
  event_loop r = ∅ ∧ timers r = ∅ ∧ inflight r = [] ∧ queue r = [] ∧ running r = 0.
Proof. vm_compute. repeat split; done. Qed.

Lemma retried_job_stays_running_witness :
  let r' := execute "job-c" (Response 503) 7 (new_runner [job_c]) in
  event_loop r' !! 0%nat =
    Some {| delay := 2007; callback := Submit "job-c:retry:1" "job-c" |} ∧
  ∃ job', findOneBy "job-c"
            (repo (run accept_all [TimerFires 0 5000; TaskBegins 0; CronTicks 3] r'))
          = Some job' ∧
          Job.status job' = Running ∧ Job.attempt_count job' = 1%nat.
Proof.
  destruct (retried_job_stays_running accept_all "job-c" job_c (Response 503) 7
              [TimerFires 0 5000; TaskBegins 0; CronTicks 3] (new_runner [job_c]))
    as (H1 & job' & H2 & H3 & _ & H4 & _).
  - reflexivity.
  - discriminate.
  - apply Forall_nil_2.
  - reflexivity.
  - reflexivity.
  - vm_compute. reflexivity.
  - reflexivity.
  - destruct H1 as (d & Hd & -> & _).
    + vm_compute. split; [discriminate | reflexivity].
    + vm_compute. lia.
    + split; [exact Hd|]. exists job'. split; [exact H2|]. split; [exact H3 | exact H4].
Defined.

(** * Further properties of the runner and of the service *)

(** ** [unscheduleAll] and [onModuleDestroy] *)

Lemma values_of_map {V} (m : gmap string V) v :
  v ∈ (map_to_list m).*2 ↔ ∃ k, m !! k = Some v.
Proof.
  rewrite list_elem_of_fmap. split.
  - intros ([k v'] & -> & H). apply elem_of_map_to_list in H. by exists k.
  - intros [k H]. exists (k, v). split; [done|]. by apply elem_of_map_to_list.
Qed.

Lemma clear_all_timers_spec l r :
  let r' := foldl (fun acc (kt : string * nat) =>
                     let acc' := clearTimeout kt.2 acc in
                     set_timers (delete kt.1 (timers acc')) acc') r l in
  (∀ k, timers r' !! k = if decide (k ∈ l.*1) then None else timers r !! k) ∧
  (∀ h, event_loop r' !! h = if decide (h ∈ l.*2) then None else event_loop r !! h) ∧
  cronJobs r' = cronJobs r ∧ cron_loop r' = cron_loop r ∧
  next_handle r' = next_handle r ∧ queue_state r' = queue_state r ∧ repo r' = repo r.
Proof.
  revert r. induction l as [|[k0 t0] l IH]; intros r; simpl.
  - repeat split; done.
  - destruct (IH (set_timers (delete k0 (timers (clearTimeout t0 r))) (clearTimeout t0 r)))
      as (H1 & H2 & H3 & H4 & H5 & H6 & H7).
    split; [|split; [|split; [exact H3|]; split; [exact H4|]; split; [exact H5|];
                       split; [exact H6 | exact H7]]].
    + intros k. rewrite H1. simpl.
      destruct (decide (k ∈ l.*1)) as [Hin|Hn].
      * rewrite decide_True; [done | by right].
      * destruct (decide (k = k0)) as [->|Hne].
        -- rewrite lookup_delete_eq. rewrite decide_True; [done | by left].
        -- rewrite lookup_delete_ne by done. rewrite decide_False; [done|].
           intros [?|?]%elem_of_cons; done.
    + intros h. rewrite H2. simpl.
      destruct (decide (h ∈ l.*2)) as [Hin|Hn].
      * rewrite decide_True; [done | by right].
      * destruct (decide (h = t0)) as [->|Hne].
        -- rewrite lookup_delete_eq. rewrite decide_True; [done | by left].
        -- rewrite lookup_delete_ne by done. rewrite decide_False; [done|].
           intros [?|?]%elem_of_cons; done.
Qed.

Lemma stop_all_cron_spec l r :
  let r' := foldl (fun acc (it : string * nat) =>
                     let acc' := stop it.2 acc in
                     set_cronJobs (delete it.1 (cronJobs acc')) acc') r l in
  (∀ k, cronJobs r' !! k = if decide (k ∈ l.*1) then None else cronJobs r !! k) ∧
  (∀ h, cron_loop r' !! h = if decide (h ∈ l.*2) then None else cron_loop r !! h) ∧
  timers r' = timers r ∧ event_loop r' = event_loop r ∧
  next_handle r' = next_handle r ∧ queue_state r' = queue_state r ∧ repo r' = repo r.
Proof.
  revert r. induction l as [|[k0 t0] l IH]; intros r; simpl.
  - repeat split; done.
  - destruct (IH (set_cronJobs (delete k0 (cronJobs (stop t0 r))) (stop t0 r)))
      as (H1 & H2 & H3 & H4 & H5 & H6 & H7).
    split; [|split; [|split; [exact H3|]; split; [exact H4|]; split; [exact H5|];
                       split; [exact H6 | exact H7]]].
    + intros k. rewrite H1. simpl.
      destruct (decide (k ∈ l.*1)) as [Hin|Hn].
      * rewrite decide_True; [done | by right].
      * destruct (decide (k = k0)) as [->|Hne].
        -- rewrite lookup_delete_eq. rewrite decide_True; [done | by left].
        -- rewrite lookup_delete_ne by done. rewrite decide_False; [done|].
           intros [?|?]%elem_of_cons; done.
    + intros h. rewrite H2. simpl.
      destruct (decide (h ∈ l.*2)) as [Hin|Hn].
      * rewrite decide_True; [done | by right].
      * destruct (decide (h = t0)) as [->|Hne].
        -- rewrite lookup_delete_eq. rewrite decide_True; [done | by left].
        -- rewrite lookup_delete_ne by done. rewrite decide_False; [done|].
           intros [?|?]%elem_of_cons; done.
Qed.

Lemma unscheduleAll_empty r :
  timers r = ∅ → cronJobs r = ∅ → unscheduleAll r = r.
Proof.
  intros Ht Hc. unfold unscheduleAll. rewrite Ht, map_to_list_empty. simpl.
  by rewrite Hc, map_to_list_empty.
Qed.

Lemma unscheduleAll_spec r :
  timers (unscheduleAll r) = ∅ ∧ cronJobs (unscheduleAll r) = ∅ ∧
  (∀ key t, timers r !! key = Some t → event_loop (unscheduleAll r) !! t = None) ∧
  (∀ i task, cronJobs r !! i = Some task → cron_loop (unscheduleAll r) !! task = None) ∧
  (∀ t, (∀ key, timers r !! key ≠ Some t) →
        event_loop (unscheduleAll r) !! t = event_loop r !! t) ∧
  repo (unscheduleAll r) = repo r ∧ queue_state (unscheduleAll r) = queue_state r.
Proof.
  unfold unscheduleAll.
  destruct (clear_all_timers_spec (map_to_list (timers r)) r)
    as (T1 & T2 & T3 & T4 & _ & T6 & T7). cbv zeta in *.
  set (r1 := foldl _ r (map_to_list (timers r))) in *.
  destruct (stop_all_cron_spec (map_to_list (cronJobs r1)) r1)
    as (C1 & C2 & C3 & C4 & _ & C6 & C7). cbv zeta in *.
  set (r2 := foldl _ r1 (map_to_list (cronJobs r1))) in *.
  split; [|split; [|split; [|split; [|split; [|split]]]]].
  - rewrite C3. apply map_eq. intros k. rewrite T1, lookup_empty.
    case_decide as Hk; [done|]. destruct (timers r !! k) eqn:E; [|done].
    exfalso. apply Hk. apply keys_of_map. by rewrite E.
  - apply map_eq. intros k. rewrite C1, lookup_empty.
    case_decide as Hk; [done|]. destruct (cronJobs r1 !! k) eqn:E; [|done].
    exfalso. apply Hk. apply keys_of_map. by rewrite E.
  - intros key t Hk. rewrite C4, T2. rewrite decide_True; [done|].
    apply values_of_map. by exists key.
  - intros i task Hi. rewrite C2. rewrite decide_True; [done|].
    apply values_of_map. exists i. by rewrite T3.
  - intros t Hun. rewrite C4, T2. rewrite decide_False; [done|].
    intros [key Hk]%values_of_map. by apply (Hun key).
  - by rewrite C7, T7.
  - by rewrite C6, T6.
Qed.

(** X1. [unscheduleAll] empties both registries and cancels every timeout
    and every cron task that was registered; a timeout that was pending
    without being registered is still pending; the table and the queue are
    left alone, and a second call changes nothing. *)
Theorem unscheduleAll_clears r :
  timers (unscheduleAll r) = ∅ ∧ cronJobs (unscheduleAll r) = ∅ ∧
  (∀ key t, timers r !! key = Some t → event_loop (unscheduleAll r) !! t = None) ∧
  (∀ i task, cronJobs r !! i = Some task → cron_loop (unscheduleAll r) !! task = None) ∧
  (∀ t, (∀ key, timers r !! key ≠ Some t) →
        event_loop (unscheduleAll r) !! t = event_loop r !! t) ∧
  repo (unscheduleAll r) = repo r ∧ queue_state (unscheduleAll r) = queue_state r ∧
  unscheduleAll (unscheduleAll r) = unscheduleAll r.
Proof.
  destruct (unscheduleAll_spec r) as (H1 & H2 & H3 & H4 & H5 & H6 & H7).
  repeat (split; [done|]). by apply unscheduleAll_empty.
Qed.

Lemma unscheduleAll_clears_witness :
  event_loop (unscheduleAll fully_armed) !! 0%nat = None ∧
  cron_loop (unscheduleAll fully_armed) !! 2%nat = None.
Proof.
  destruct (unscheduleAll_clears fully_armed) as (_ & _ & H3 & H4 & _).
  split; [apply (H3 "job-s"%string) | apply (H4 "job-s"%string)]; reflexivity.
Defined.

Lemma destroy_timers_spec l r :
  let r' := foldl (fun acc (kt : string * nat) => clearTimeout kt.2 acc) r l in
  (∀ h, event_loop r' !! h = if decide (h ∈ l.*2) then None else event_loop r !! h) ∧
  timers r' = timers r ∧ cronJobs r' = cronJobs r ∧ cron_loop r' = cron_loop r ∧
  queue_state r' = queue_state r ∧ repo r' = repo r.
Proof.
  revert r. induction l as [|[k0 t0] l IH]; intros r; simpl.
  - repeat split; done.
  - destruct (IH (clearTimeout t0 r)) as (H1 & H2 & H3 & H4 & H5 & H6).
    split; [|split; [exact H2|]; split; [exact H3|]; split; [exact H4|];
             split; [exact H5 | exact H6]].
    intros h. rewrite H1. simpl.
    destruct (decide (h ∈ l.*2)) as [Hin|Hn].
    + rewrite decide_True; [done | by right].
    + destruct (decide (h = t0)) as [->|Hne].
      * rewrite lookup_delete_eq. rewrite decide_True; [done | by left].
      * rewrite lookup_delete_ne by done. rewrite decide_False; [done|].
        intros [?|?]%elem_of_cons; done.
Qed.

Lemma destroy_cron_spec l r :
  let r' := foldl (fun acc (it : string * nat) => stop it.2 acc) r l in
  (∀ h, cron_loop r' !! h = if decide (h ∈ l.*2) then None else cron_loop r !! h) ∧
  timers r' = timers r ∧ cronJobs r' = cronJobs r ∧ event_loop r' = event_loop r ∧
  queue_state r' = queue_state r ∧ repo r' = repo r.
Proof.
  revert r. induction l as [|[k0 t0] l IH]; intros r; simpl.
  - repeat split; done.
  - destruct (IH (stop t0 r)) as (H1 & H2 & H3 & H4 & H5 & H6).
    split; [|split; [exact H2|]; split; [exact H3|]; split; [exact H4|];
             split; [exact H5 | exact H6]].
    intros h. rewrite H1. simpl.
    destruct (decide (h ∈ l.*2)) as [Hin|Hn].
    + rewrite decide_True; [done | by right].
    + destruct (decide (h = t0)) as [->|Hne].
      * rewrite lookup_delete_eq. rewrite decide_True; [done | by left].
      * rewrite lookup_delete_ne by done. rewrite decide_False; [done|].
        intros [?|?]%elem_of_cons; done.
Qed.

(** X2. [onModuleDestroy] cancels every registered timeout and stops every
    registered cron task, so none of them does anything afterwards, but it
    keeps the entries of both registries; the tasks in flight and the
    pending list are not touched. *)
Theorem onModuleDestroy_cancels r :
  timers (onModuleDestroy r) = timers r ∧ cronJobs (onModuleDestroy r) = cronJobs r ∧
  (∀ key t now, timers r !! key = Some t →
                timer_fires t now (onModuleDestroy r) = onModuleDestroy r) ∧
  (∀ i task, cronJobs r !! i = Some task →
             cron_ticks task (onModuleDestroy r) = onModuleDestroy r) ∧
  repo (onModuleDestroy r) = repo r ∧ queue_state (onModuleDestroy r) = queue_state r.
Proof.
  unfold onModuleDestroy.
  destruct (destroy_timers_spec (map_to_list (timers r)) r) as (T1 & T2 & T3 & T4 & T5 & T6).
  cbv zeta in *. set (r1 := foldl _ r (map_to_list (timers r))) in *.
  destruct (destroy_cron_spec (map_to_list (cronJobs r1)) r1) as (C1 & C2 & C3 & C4 & C5 & C6).
  cbv zeta in *. set (r2 := foldl _ r1 (map_to_list (cronJobs r1))) in *.
  split; [by rewrite C2, T2|]. split; [by rewrite C3, T3|].
  split; [|split; [|split; [by rewrite C6, T6 | by rewrite C5, T5]]].
  - intros key t now Hk. unfold timer_fires. rewrite C4, T1.
    rewrite decide_True; [done|]. apply values_of_map. by exists key.
  - intros i task Hi. unfold cron_ticks. rewrite C1.
    rewrite decide_True; [done|]. apply values_of_map. exists i. by rewrite T3.
Qed.

Lemma onModuleDestroy_cancels_witness :
  timer_fires 1 9000 (onModuleDestroy fully_armed) = onModuleDestroy fully_armed ∧
  timers (onModuleDestroy fully_armed) !! retry_key "job-s" 1 = Some 1%nat.
Proof.
  destruct (onModuleDestroy_cancels fully_armed) as (H1 & _ & H3 & _).
  split; [apply (H3 (retry_key "job-s" 1)); reflexivity|].
  rewrite H1. reflexivity.
Defined.

(** ** Retry keys *)

Lemma length_append_string a b :
  String.length (a +:+ b) = (String.length a + String.length b)%nat.
Proof.
  induction a as [|x a IH]; [done|].
  change (S (String.length (a +:+ b)) = S (String.length a + String.length b)).
  by rewrite IH.
Qed.

Lemma retry_key_ne_id i attempt : retry_key i attempt ≠ i.
Proof.
  intros H. apply (f_equal String.length) in H. unfold retry_key in H.
  rewrite !length_append_string in H. simpl in H. lia.
Qed.

Lemma retry_key_inj i n m : retry_key i n = retry_key i m → n = m.
Proof.
  unfold retry_key. intros H.
  apply (inj (String.append i)) in H.
  apply (inj (String.append ":retry:")) in H.
  by apply (inj pretty) in H.
Qed.

(** X3. The key of a retry timer is never the job id and differs from one
    attempt to the next. So the retry timer that a retry-eligible failure
    arms is added to the registry beside the job's main entry, which is
    left as it was, no pending timeout is lost, and when the retry timer
    fires only its own entry is removed. *)
Theorem retry_timer_is_separate i job res jitter now r :
  findOneBy i (repo r) = Some job →
  Job.status job ≠ Running →
  success res = false →
  retries_enabled job = true →
  Z.of_nat (Job.attempt_count job + 1) < retries_maxAttempts job →
  isRetryable job res = true →
  handles_fresh r →
  let r' := execute i res jitter r in
  let key := retry_key i (Job.attempt_count job + 1) in
  key ≠ i ∧
  (∀ n m, retry_key i n = retry_key i m → n = m) ∧
  timers r' = <[key := next_handle r]> (timers r) ∧
  timers r' !! i = timers r !! i ∧
  (∀ t p, event_loop r !! t = Some p → event_loop r' !! t = Some p) ∧
  timers (timer_fires (next_handle r) now r') = delete key (timers r) ∧
  timers (timer_fires (next_handle r) now r') !! i = timers r !! i.
Proof.
  intros Hfind Hst Hs Hen Hlt Hre Hfresh r' key.
  destruct (handles_fresh_next r Hfresh) as [Hnone _].
  pose proof (findOneBy_id _ _ _ Hfind) as Hid.
  assert (Hr' : r' = with_timer key
                  {| delay := 2 ^ Z.of_nat (Job.attempt_count job + 1) * base + jitter;
                     callback := Submit key i |}
                  (set_repo
                     (save (set_last_error
                              (Some (default ("status:" +:+ pretty (responseStatus res))
                                       (errorMessage res)))
                              (set_attempt_count (Job.attempt_count job + 1)
                                 (set_status Running job)))
                        (save (set_attempt_count (Job.attempt_count job + 1)
                                 (set_status Running job)) (repo r))) r)).
  { unfold r', execute. rewrite (execute_begin_fresh _ _ _ Hfind Hst).
    rewrite execute_finish_retry; [|done|].
    - subst i. reflexivity.
    - change (retries_enabled (set_attempt_count _ _)) with (retries_enabled job).
      change (retries_maxAttempts (set_attempt_count _ _)) with (retries_maxAttempts job).
      change (isRetryable (set_attempt_count _ _) res) with (isRetryable job res).
      rewrite Hen, Hre. simpl. rewrite andb_true_r. apply Z.ltb_lt. exact Hlt. }
  assert (Hkey : key ≠ i) by apply retry_key_ne_id.
  split; [exact Hkey|]. split; [apply retry_key_inj|].
  split; [by rewrite Hr'|]. split; [rewrite Hr'; simpl; by rewrite lookup_insert_ne|].
  split.
  { intros t p Ht. rewrite Hr'. simpl. rewrite lookup_insert_ne; [done|]. congruence. }
  assert (Hfire : timers (timer_fires (next_handle r) now r') = delete key (timers r)).
  { rewrite Hr'.
    match goal with |- context [with_timer _ ?p ?r0] =>
      pose proof (timer_fires_with_timer key p now r0 Hnone) as Hf;
      change (next_handle r0) with (next_handle r) in Hf;
      change (timers r0) with (timers r) in Hf
    end.
    rewrite Hf. cbn [callback].
    match goal with |- timers (enqueue _ ?r1) = _ =>
      destruct (enqueue_registry i r1) as [Ht _]; rewrite Ht end.
    simpl. by rewrite delete_insert_eq. }
  split; [exact Hfire|]. rewrite Hfire. by rewrite lookup_delete_ne.
Qed.

Lemma retry_timer_is_separate_witness :
  let r := scheduleOneOff job_soon 0 (new_runner [job_soon]) in
  timers (execute "job-s" (Response 500) 7 r) !! "job-s"%string = Some 0%nat.
Proof.
  intros r.
  destruct (retry_timer_is_separate "job-s" job_soon (Response 500) 7 9000 r)
    as (_ & _ & _ & H & _).
  - reflexivity.
  - discriminate.
  - reflexivity.
  - reflexivity.
  - vm_compute. reflexivity.
  - reflexivity.
  - apply (run_fresh accept_all [NewJob job_soon 0] [job_soon]).
  - rewrite H. reflexivity.
Defined.

(** ** [unscheduleJob] and the other jobs *)

Lemma clear_retries_event_loop_other pre keys : ∀ r h,
  (∀ k rt, String.prefix pre k = true → timers r !! k = Some rt → rt ≠ h) →
  event_loop (foldl (clear_retry pre) r keys) !! h = event_loop r !! h.
Proof.
  induction keys as [|key keys IH]; intros r h Hno; simpl; [done|].
  rewrite IH.
  - unfold clear_retry. destruct (String.prefix pre key) eqn:Hp; [|done].
    destruct (timers r !! key) as [rt|] eqn:Hk; simpl; [|done].
    rewrite lookup_delete_ne; [done|]. by eapply Hno.
  - intros k rt Hp Hk. rewrite clear_retry_timers in Hk.
    destruct (String.prefix pre key); [|by eapply Hno].
    destruct (decide (k = key)) as [->|Hne].
    + by rewrite lookup_delete_eq in Hk.
    + rewrite lookup_delete_ne in Hk by done. by eapply Hno.
Qed.

Lemma unscheduleJob_others i r :
  (∀ key, key ≠ i → String.prefix (i +:+ ":retry:") key = false →
          timers (unscheduleJob i r) !! key = timers r !! key) ∧
  (∀ j, j ≠ i → cronJobs (unscheduleJob i r) !! j = cronJobs r !! j) ∧
  (∀ h, timers r !! i ≠ Some h →
        (∀ key, String.prefix (i +:+ ":retry:") key = true → timers r !! key ≠ Some h) →
        event_loop (unscheduleJob i r) !! h = event_loop r !! h) ∧
  (∀ task, cronJobs r !! i ≠ Some task →
           cron_loop (unscheduleJob i r) !! task = cron_loop r !! task) ∧
  repo (unscheduleJob i r) = repo r ∧ queue_state (unscheduleJob i r) = queue_state r.
Proof.
  destruct (unscheduleJob_frame i r) as [Hq Hr].
  split; [|split; [|split; [|split; [|done]]]].
  - intros key Hne Hp. unfold unscheduleJob.
    destruct (stop_cron_spec i (clear_retries i (clear_main i r))) as (-> & _).
    unfold clear_retries. rewrite clear_retries_timers.
    rewrite decide_False by (intros [_ ?]; congruence).
    destruct (clear_main_spec i r) as (-> & _). by rewrite lookup_delete_ne.
  - intros j Hne. unfold unscheduleJob, stop_cron.
    destruct (clear_retries_cron (i +:+ ":retry:")
                (map_to_list (timers (clear_main i r))).*1 (clear_main i r)) as (Hc & _).
    destruct (clear_main_spec i r) as (_ & _ & _ & Hc1 & _).
    fold (clear_retries i (clear_main i r)) in Hc.
    destruct (cronJobs (clear_retries i (clear_main i r)) !! i); simpl.
    + rewrite lookup_delete_ne by done. by rewrite Hc, Hc1.
    + by rewrite Hc, Hc1.
  - intros h Hmain Hretry. unfold unscheduleJob.
    destruct (stop_cron_spec i (clear_retries i (clear_main i r))) as (_ & -> & _).
    unfold clear_retries. rewrite clear_retries_event_loop_other.
    + unfold clear_main. destruct (timers r !! i) as [t|] eqn:Ht; simpl; [|done].
      rewrite lookup_delete_ne; [done|]. congruence.
    + intros k rt Hp Hk. destruct (clear_main_spec i r) as (Ht & _). rewrite Ht in Hk.
      destruct (decide (k = i)) as [->|Hne]; [by rewrite lookup_delete_eq in Hk|].
      rewrite lookup_delete_ne in Hk by done. intros ->. by apply (Hretry k).
  - intros task Hne. unfold unscheduleJob, stop_cron.
    destruct (clear_retries_cron (i +:+ ":retry:")
                (map_to_list (timers (clear_main i r))).*1 (clear_main i r))
      as (Hc & Hl & _).
    destruct (clear_main_spec i r) as (_ & _ & _ & Hc1 & Hl1).
    fold (clear_retries i (clear_main i r)) in Hc, Hl.
    destruct (cronJobs (clear_retries i (clear_main i r)) !! i) as [task'|] eqn:E; simpl.
    + rewrite Hc, Hc1 in E. rewrite lookup_delete_ne by congruence. by rewrite Hl, Hl1.
    + by rewrite Hl, Hl1.
Qed.

(** X4. [unscheduleJob(id)] leaves the other registrations alone: a timer
    key that is neither the id nor starts with [id:retry:] keeps its entry,
    every other job keeps its cron entry, a timeout or cron task that was
    not registered under one of the removed keys stays live, and neither
    the table nor the queue is touched. *)
Theorem unscheduleJob_other_jobs i r :
  (∀ key, key ≠ i → String.prefix (i +:+ ":retry:") key = false →
          timers (unscheduleJob i r) !! key = timers r !! key) ∧
  (∀ j, j ≠ i → cronJobs (unscheduleJob i r) !! j = cronJobs r !! j) ∧
  (∀ h, timers r !! i ≠ Some h →
        (∀ key, String.prefix (i +:+ ":retry:") key = true → timers r !! key ≠ Some h) →
        event_loop (unscheduleJob i r) !! h = event_loop r !! h) ∧
  (∀ task, cronJobs r !! i ≠ Some task →
           cron_loop (unscheduleJob i r) !! task = cron_loop r !! task) ∧
  repo (unscheduleJob i r) = repo r ∧ queue_state (unscheduleJob i r) = queue_state r.
Proof. apply unscheduleJob_others. Qed.

Lemma unscheduleJob_other_jobs_witness :
  let r := scheduleOneOff job_far 0 fully_armed in
  timers (unscheduleJob "job-s" r) !! "job-f"%string = Some 3%nat ∧
  is_Some (event_loop (unscheduleJob "job-s" r) !! 3%nat).
Proof.
  intros r.
  destruct (unscheduleJob_other_jobs "job-s" r) as (H1 & _ & H3 & _).
  split.
  - rewrite H1; [reflexivity | discriminate | reflexivity].
  - rewrite H3.
    + vm_compute. eauto.
    + vm_compute. discriminate.
    + intros key Hp. destruct (timers r !! key) as [t|] eqn:E; [|discriminate].
      intros [= ->]. revert E. unfold r.
      destruct (decide (key = "job-f"%string)) as [->|Hne]; [vm_compute in Hp; discriminate|].
      assert (Ht : timers (scheduleOneOff job_far 0 fully_armed)
                   = <["job-f"%string := 3%nat]> (timers fully_armed)) by reflexivity.
      rewrite Ht, lookup_insert_ne by done.
      intros E. assert (Hin : (3%nat : nat) ∈ (map_to_list (timers fully_armed)).*2).
      { apply values_of_map. by exists key. }
      vm_compute in Hin. repeat (apply elem_of_cons in Hin as [Hin|Hin]; [discriminate|]).
      by apply elem_of_nil in Hin.
Defined.

(** ** The service: [remove] and [removeAll] *)

Lemma findOneBy_repo_remove_eq job rows :
  findOneBy (Job.id job) (repo_remove job rows) = None.
Proof.
  unfold findOneBy, repo_remove. induction rows as [|row rows IH]; [done|].
  simpl. destruct (bool_decide (Job.id row = Job.id job)) eqn:E; simpl; [exact IH|].
  by rewrite E.
Qed.

Lemma findOneBy_repo_remove_ne i job rows :
  i ≠ Job.id job → findOneBy i (repo_remove job rows) = findOneBy i rows.
Proof.
  intros Hne. unfold findOneBy, repo_remove. induction rows as [|row rows IH]; [done|].
  simpl. destruct (decide (Job.id row = Job.id job)) as [Hrow|Hrow].
  - rewrite (bool_decide_eq_true_2 _ Hrow). simpl.
    rewrite (bool_decide_eq_false_2 (Job.id row = i)) by congruence. exact IH.
  - rewrite (bool_decide_eq_false_2 _ Hrow). simpl.
    destruct (bool_decide (Job.id row = i)); [done | exact IH].
Qed.

Lemma repo_remove_absent job rows :
  findOneBy (Job.id job) rows = None → repo_remove job rows = rows.
Proof.
  unfold findOneBy, repo_remove. induction rows as [|row rows IH]; [done|].
  simpl. destruct (bool_decide (Job.id row = Job.id job)); [done|].
  intros H. simpl. by rewrite IH.
Qed.

Lemma repo_remove_app job rows rows' :
  repo_remove job (rows ++ rows') = repo_remove job rows ++ repo_remove job rows'.
Proof. unfold repo_remove. apply List.filter_app. Qed.

Lemma execute_finish_persists job res jitter r :
  ∃ row, findOneBy (Job.id job) (repo (execute_finish job res jitter r)) = Some row ∧
         Job.id row = Job.id job.
Proof.
  unfold execute_finish. destruct (success res).
  - eexists. split; [simpl; exact (findOneBy_save_eq
      (set_attempt_count 0 (set_status _ (set_last_error None job))) _) | reflexivity].
  - destruct (_ && _).
    + eexists. split; [simpl; exact (findOneBy_save_eq (set_last_error _ job) _)
                      | reflexivity].
    + eexists. split; [simpl; exact (findOneBy_save_eq
        (set_status Failed (set_last_error _ job)) _) | reflexivity].
Qed.

(** X5. [remove(id)] of an id that has no row returns at once and changes
    nothing, not even a registration left under that id. With a row, the
    row is deleted and the other rows are kept, the id has no timer, retry
    timer or cron task registered any more, the ones that were registered
    do nothing if the platform still delivers them, and an [execute] of the
    id that starts later is a no-op. *)
Theorem remove_disarms_and_deletes i r :
  (findOneBy i (repo r) = None → SchedulerService.remove i r = r) ∧
  (is_Some (findOneBy i (repo r)) →
   let r' := SchedulerService.remove i r in
   SchedulerService.findOne i r' = None ∧
   (∀ j, j ≠ i → SchedulerService.findOne j r' = SchedulerService.findOne j r) ∧
   timers r' !! i = None ∧
   (∀ attempt, timers r' !! retry_key i attempt = None) ∧
   cronJobs r' !! i = None ∧
   (∀ t now, timers r !! i = Some t → timer_fires t now r' = r') ∧
   (∀ attempt t now, timers r !! retry_key i attempt = Some t → timer_fires t now r' = r') ∧
   (∀ task, cronJobs r !! i = Some task → cron_ticks task r' = r') ∧
   (∀ res jitter, execute i res jitter r' = r') ∧
   queue_state r' = queue_state r).
Proof.
  unfold SchedulerService.remove, SchedulerService.findOne. split.
  - by intros ->.
  - intros [job Hjob]. rewrite Hjob. cbv zeta.
    pose proof (findOneBy_id _ _ _ Hjob) as Hid.
    destruct (unscheduleJob_registry i r) as (H1 & H2 & H3).
    destruct (unscheduleJob_cancels i r) as (H4 & H5 & H6).
    destruct (unscheduleJob_frame i r) as [Hq Hr]. simpl.
    assert (Hgone : findOneBy i (repo_remove job (repo (unscheduleJob i r))) = None).
    { rewrite <- Hid. apply findOneBy_repo_remove_eq. }
    split; [exact Hgone|]. split.
    { intros j Hne. rewrite findOneBy_repo_remove_ne by congruence. by rewrite Hr. }
    split; [exact H1|]. split; [intros attempt; apply H2, retry_key_prefix|].
    split; [exact H3|]. split.
    { intros t now Ht. unfold timer_fires. simpl. by rewrite (H4 t Ht). }
    split.
    { intros attempt t now Ht. unfold timer_fires. simpl.
      by rewrite (H5 _ t (retry_key_prefix i attempt) Ht). }
    split.
    { intros task Hc. unfold cron_ticks. simpl. by rewrite (H6 task Hc). }
    split; [|exact Hq].
    intros res jitter. unfold execute, execute_begin. simpl. by rewrite Hgone.
Qed.

Lemma remove_disarms_and_deletes_witness :
  SchedulerService.findOne "job-s" (SchedulerService.remove "job-s" fully_armed) = None ∧
  timer_fires 1 9000 (SchedulerService.remove "job-s" fully_armed)
  = SchedulerService.remove "job-s" fully_armed ∧
  SchedulerService.remove "job-z" fully_armed = fully_armed.
Proof.
  destruct (remove_disarms_and_deletes "job-s" fully_armed) as [_ H].
  destruct H as (H1 & _ & _ & _ & _ & _ & H7 & _).
  { vm_compute. eauto. }
  destruct (remove_disarms_and_deletes "job-z" fully_armed) as [H0 _].
  split; [exact H1|]. split; [apply (H7 1%nat); reflexivity|].
  apply H0. reflexivity.
Defined.

(** X6. A job removed while one of its HTTP calls is in flight comes back:
    when the call returns, [execute] saves its local copy of the job, and
    the table has a row with that id again, although [remove] had deleted
    it. *)
Theorem removed_job_is_saved_back k i0 job res jitter r :
  inflight r !! k = Some (i0, Awaiting job) →
  SchedulerService.findOne (Job.id job) (SchedulerService.remove (Job.id job) r) = None ∧
  ∃ row, SchedulerService.findOne (Job.id job)
           (task_responds k res jitter (SchedulerService.remove (Job.id job) r)) = Some row ∧
         Job.id row = Job.id job.
Proof.
  intros Hk. unfold SchedulerService.findOne.
  assert (Hin : inflight (SchedulerService.remove (Job.id job) r) = inflight r).
  { unfold SchedulerService.remove. destruct (findOneBy _ (repo r)); [|done]. simpl.
    apply queue_state_inflight, unscheduleJob_frame. }
  split.
  - unfold SchedulerService.remove.
    destruct (findOneBy (Job.id job) (repo r)) as [row|] eqn:E; [|exact E].
    simpl. pose proof (findOneBy_id _ _ _ E) as Hid. rewrite <- Hid.
    apply findOneBy_repo_remove_eq.
  - unfold task_responds. rewrite Hin, Hk. rewrite settle_repo.
    destruct (execute_finish_persists job res jitter
                (SchedulerService.remove (Job.id job) r)) as (row & H1 & H2).
    by exists row.
Qed.

Lemma removed_job_is_saved_back_witness :
  let r := task_begins 0 (scheduleOneOff job_a 2000 (new_runner [job_a])) in
  SchedulerService.findOne "job-a" (SchedulerService.remove "job-a" r) = None ∧
  ∃ row, SchedulerService.findOne "job-a"
           (task_responds 0 (Response 200) 0 (SchedulerService.remove "job-a" r)) = Some row ∧
         Job.id row = "job-a"%string.
Proof.
  intros r.
  exact (removed_job_is_saved_back 0 "job-a"
           (set_attempt_count 1 (set_status Running job_a)) (Response 200) 0 r eq_refl).
Defined.

(** X7. [removeAll()] leaves an empty table and empty registries, with
    every registered timeout and cron task cancelled; whatever id an
    [execute] that starts later is given, it is a no-op. The tasks in flight
    and the pending list are not touched. *)
Theorem removeAll_clears r :
  let r' := SchedulerService.removeAll r in
  repo r' = [] ∧ timers r' = ∅ ∧ cronJobs r' = ∅ ∧
  (∀ key t now, timers r !! key = Some t → timer_fires t now r' = r') ∧
  (∀ i task, cronJobs r !! i = Some task → cron_ticks task r' = r') ∧
  (∀ i res jitter, execute i res jitter r' = r') ∧
  queue_state r' = queue_state r.
Proof.
  unfold SchedulerService.removeAll. cbv zeta.
  destruct (unscheduleAll_spec r) as (H1 & H2 & H3 & H4 & _ & _ & H7).
  split; [done|]. split; [exact H1|]. split; [exact H2|]. split.
  { intros key t now Ht. unfold timer_fires. simpl. by rewrite (H3 key t Ht). }
  split.
  { intros i task Hc. unfold cron_ticks. simpl. by rewrite (H4 i task Hc). }
  split; [done | exact H7].
Qed.

Lemma removeAll_clears_witness :
  timer_fires 0 9000 (SchedulerService.removeAll fully_armed)
  = SchedulerService.removeAll fully_armed.
Proof.
  destruct (removeAll_clears fully_armed) as (_ & _ & _ & H & _).
  apply (H "job-s"%string). reflexivity.
Defined.

(** ** Startup *)

(** The queue of a service in which no task has settled yet. *)
Lemma enqueue_startup fn r :
  launched r = take 5 (submitted r) →
  queue r = drop 5 (submitted r) →
  running r = Z.of_nat (length (launched r)) →
  inflight r = (fun i => (i, Starting)) <$> launched r →
  let r' := enqueue fn r in
  submitted r' = submitted r ++ [fn] ∧
  launched r' = take 5 (submitted r') ∧
  queue r' = drop 5 (submitted r') ∧
  running r' = Z.of_nat (length (launched r')) ∧
  inflight r' = (fun i => (i, Starting)) <$> launched r'.
Proof.
  intros Hl Hq Hr Hi. unfold enqueue. simpl.
  assert (Hlen : length (launched r) = Nat.min 5 (length (submitted r)))
    by (by rewrite Hl, length_take).
  destruct (Z.ltb_spec (running r) concurrency) as [Hlt|Hge]; simpl.
  - assert (length (submitted r) < 5)%nat by (unfold concurrency in Hlt; lia).
    assert (Hall : launched r = submitted r) by (rewrite Hl; apply take_ge; lia).
    split; [done|]. split; [|split; [|split]].
    + rewrite take_ge by (rewrite length_app; simpl; lia). by rewrite Hall.
    + rewrite drop_ge by (rewrite length_app; simpl; lia).
      rewrite Hq. apply drop_ge. lia.
    + rewrite length_app. simpl. lia.
    + rewrite fmap_app. by rewrite Hi.
  - assert (5 ≤ length (submitted r))%nat by (unfold concurrency in Hge; lia).
    split; [done|]. split; [|split; [|split]].
    + by rewrite take_app_le.
    + rewrite drop_app_le by done. by rewrite Hq.
    + done.
    + done.
Qed.

Lemma scheduleNewJob_startup ca job now r :
  scheduleNewJob ca job now r = enqueue (Job.id job) r ∧
    due_at_startup (fun _ => now) job = true
  ∨ queue_state (scheduleNewJob ca job now r) = queue_state r ∧
    repo (scheduleNewJob ca job now r) = repo r ∧
    due_at_startup (fun _ => now) job = false.
Proof.
  unfold scheduleNewJob, due_at_startup. destruct (Job.type job); simpl.
  - pose proof (scheduleOneOff_cases job now r) as Hc.
    destruct (Job.scheduling job ≫= execute_at) as [runAt|].
    + destruct (decide (runAt ≤ now ∧ Job.status job = Scheduled)) as [[H1 H2]|Hn].
      * left. split; [done|].
        by rewrite (proj2 (Z.leb_le _ _) H1), bool_decide_eq_true_2.
      * right. assert (Hdue : (runAt <=? now) && bool_decide (Job.status job = Scheduled)
                               = false).
        { apply andb_false_iff. destruct (Z.leb_spec runAt now); [|by left].
          right. apply bool_decide_eq_false_2. intros ?. by apply Hn. }
        rewrite Hdue. destruct (decide _); by rewrite Hc.
    + right. by rewrite Hc.
  - right. split; [apply scheduleRecurring_queue|].
    split; [apply scheduleRecurring_repo | done].
Qed.

(** X8. On a fresh service, [onModuleInit] hands to the queue exactly the
    one-off rows that are due and [scheduled], in the order of the table:
    the first five of them are started at once, the others wait in that
    order. It does not write the table. *)
Theorem onModuleInit_submits_due ca clock rows :
  let r := onModuleInit ca clock (new_runner rows) in
  submitted r = List.map Job.id (List.filter (due_at_startup clock) rows) ∧
  launched r = take 5 (submitted r) ∧
  queue r = drop 5 (submitted r) ∧
  inflight r = (fun i => (i, Starting)) <$> launched r ∧
  repo r = rows.
Proof.
  unfold onModuleInit.
  change (repo (new_runner rows)) with rows at 1.
  assert (Hgen : ∀ l r0,
    launched r0 = take 5 (submitted r0) →
    queue r0 = drop 5 (submitted r0) →
    running r0 = Z.of_nat (length (launched r0)) →
    inflight r0 = (fun i => (i, Starting)) <$> launched r0 →
    let r := foldl (fun acc job => scheduleNewJob ca job (clock job) acc) r0 l in
    submitted r = submitted r0 ++ List.map Job.id (List.filter (due_at_startup clock) l) ∧
    launched r = take 5 (submitted r) ∧
    queue r = drop 5 (submitted r) ∧
    inflight r = (fun i => (i, Starting)) <$> launched r ∧
    repo r = repo r0).
  { induction l as [|job l IH]; intros r0 Hl Hq Hr Hi; simpl.
    - by rewrite app_nil_r.
    - destruct (scheduleNewJob_startup ca job (clock job) r0) as [[He Hd]|(Hqs & Hrp & Hd)].
      + change (due_at_startup (fun _ => clock job) job) with (due_at_startup clock job) in Hd.
        rewrite Hd, He. simpl.
        destruct (enqueue_startup (Job.id job) r0 Hl Hq Hr Hi) as (E1 & E2 & E3 & E4 & E5).
        destruct (IH _ E2 E3 E4 E5) as (I1 & I2 & I3 & I4 & I5). cbv zeta in *.
        split; [by rewrite I1, E1, <- app_assoc|]. split; [exact I2|].
        split; [exact I3|]. split; [exact I4|]. rewrite I5. apply enqueue_repo.
      + change (due_at_startup (fun _ => clock job) job) with (due_at_startup clock job) in Hd.
        rewrite Hd.
        unfold queue_state in Hqs. injection Hqs as Q1 Q2 Q3 Q4 Q5.
        destruct (IH (scheduleNewJob ca job (clock job) r0)) as (I1 & I2 & I3 & I4 & I5).
        * by rewrite Q5, Q4.
        * by rewrite Q2, Q4.
        * by rewrite Q1, Q5.
        * by rewrite Q3, Q5.
        * cbv zeta in *. split; [by rewrite I1, Q4|]. split; [exact I2|].
          split; [exact I3|]. split; [exact I4|]. by rewrite I5, Hrp. }
  destruct (Hgen rows (new_runner rows)) as (H1 & H2 & H3 & H4 & H5); try done.
Qed.

(** X9. A row that the service finds [running] when it starts (a process
    that stopped in the middle of an attempt) is never written again:
    whatever arming, timers, cron ticks and tasks follow, the row stays as
    it is, [running] with the same attempt count. *)
Theorem running_row_is_orphaned ca rows i job evs :
  findOneBy i rows = Some job →
  Job.status job = Running →
  findOneBy i (repo (run ca evs (new_runner rows))) = Some job.
Proof.
  intros Hrow Hst.
  apply (run_stuck ca i job evs (new_runner rows)).
  split; [done|]. split; [done|]. apply Forall_nil_2.
Qed.

Lemma running_row_is_orphaned_witness :
  findOneBy "job-r"
    (repo (run accept_all
             [ModuleInit (fun _ => 2000); TimerFires 0 2000; TaskBegins 0;
              NewJob job_stuck 3000; TimerFires 1 3000; TaskBegins 0]
             (new_runner [job_stuck])))
  = Some job_stuck.
Proof.
  apply (running_row_is_orphaned accept_all [job_stuck] "job-r" job_stuck); reflexivity.
Defined.

(** X10. With the retry policy enabled, a failed attempt that has used up
    [max_attempts] (an unset [max_attempts] counts as 0), or whose response
    status is not among [retryable_statuses], persists the job as [failed]
    and arms no timer. *)
Theorem execute_failure_gives_up i job res jitter r :
  findOneBy i (repo r) = Some job →
  Job.status job ≠ Running →
  success res = false →
  (retries_maxAttempts job ≤ Z.of_nat (Job.attempt_count job + 1) ∨ isRetryable job res = false) →
  Job.status <$> findOneBy i (repo (execute i res jitter r)) = Some Failed ∧
  Job.attempt_count <$> findOneBy i (repo (execute i res jitter r))
  = Some (Job.attempt_count job + 1)%nat ∧
  timers (execute i res jitter r) = timers r ∧
  event_loop (execute i res jitter r) = event_loop r.
Proof.
  intros Hfind Hst Hs Hno.
  unfold execute. rewrite (execute_begin_fresh _ _ _ Hfind Hst).
  set (job1 := set_attempt_count _ _).
  assert (He : retries_enabled job1
               && (Z.of_nat (Job.attempt_count job1) <? retries_maxAttempts job1)
               && isRetryable job1 res = false).
  { change (retries_maxAttempts job1) with (retries_maxAttempts job).
    change (isRetryable job1 res) with (isRetryable job res).
    change (Job.attempt_count job1) with (Job.attempt_count job + 1)%nat.
    destruct Hno as [Hmax| ->]; [|by rewrite andb_false_r].
    rewrite (proj2 (Z.ltb_ge _ _) Hmax). by rewrite andb_false_r. }
  destruct (execute_finish_failed job1 res jitter
              (set_repo (save job1 (repo r)) r) Hs He) as (Hrepo & Ht & Hev & _).
  rewrite Hrepo, Hev, Ht.
  pose proof (findOneBy_id _ _ _ Hfind) as Hid. subst i.
  rewrite (findOneBy_save_eq (set_status Failed (set_last_error _ job1)) _). done.
Qed.

Lemma execute_failure_gives_up_witness :
  Job.status <$> findOneBy "job-c"
    (repo (execute "job-c" (Response 404) 0 (new_runner [job_c]))) = Some Failed ∧
  Job.status <$> findOneBy "job-c"
    (repo (execute "job-c" (Response 503) 0
             (new_runner [set_attempt_count 1 job_c]))) = Some Failed.
Proof.
  split.
  - refine (proj1 (execute_failure_gives_up "job-c" job_c (Response 404) 0
                     (new_runner [job_c]) _ _ _ _)).
    + reflexivity.
    + discriminate.
    + reflexivity.
    + right. reflexivity.
  - refine (proj1 (execute_failure_gives_up "job-c" (set_attempt_count 1 job_c)
                     (Response 503) 0 (new_runner [set_attempt_count 1 job_c]) _ _ _ _)).
    + reflexivity.
    + discriminate.
    + reflexivity.
    + left. vm_compute. discriminate.
Defined.

(** X11. The queue never idles while work is pending: in every state the
    service can reach, a non-empty pending list means that exactly
    [concurrency] tasks are running; and whenever a chain in flight settles
    the counter is at least one, so the clamp at 0 in [_taskDone] is never
    the value taken. *)
Theorem queue_work_conserving ca rows evs :
  let r := run ca evs (new_runner rows) in
  (queue r ≠ [] → running r = concurrency ∧ length (inflight r) = 5%nat) ∧
  (∀ k, is_Some (inflight r !! k) →
        Z.max 0 (running r - 1) = running r - 1 ∧
        running (settle k r) = if decide (queue r = []) then running r - 1 else running r).
Proof.
  intros r.
  assert (Hinv : queue_inv r) by (apply run_inv, new_runner_inv).
  destruct Hinv as (Hb & Hlen & Hfull & Hlog). split.
  - intros Hq. specialize (Hfull Hq). split; [done|]. unfold concurrency in Hfull. lia.
  - intros k Hk. apply lookup_lt_is_Some_1 in Hk.
    assert (1 ≤ running r) by lia. split; [lia|].
    pose proof (settle_spec k r H) as Hs.
    destruct (queue r); [by destruct Hs | by destruct Hs].
Qed.

Lemma queue_work_conserving_witness :
  let r := run accept_all
             [NewJob job_a 2000; NewJob job_b 2000; NewJob job_c 2000; NewJob job_a 2000;
              NewJob job_b 2000; NewJob job_c 2000]
             (new_runner [job_a; job_b; job_c]) in
  running r = concurrency ∧ length (inflight r) = 5%nat.
Proof.
  intros r.
  apply (queue_work_conserving accept_all [job_a; job_b; job_c]
           [NewJob job_a 2000; NewJob job_b 2000; NewJob job_c 2000; NewJob job_a 2000;
            NewJob job_b 2000; NewJob job_c 2000]).
  vm_compute. discriminate.
Defined.

(** ** The service: [create] *)

Lemma scheduleNewJob_shapes ca job now r :
  let r1 := scheduleNewJob ca job now r in
  repo r1 = repo r ∧
  ((timers r1 = timers r ∧ event_loop r1 = event_loop r ∧
    cronJobs r1 = cronJobs r ∧ cron_loop r1 = cron_loop r)
   ∨ (∃ p, timers r1 = <[Job.id job := next_handle r]> (timers r) ∧
           event_loop r1 = <[next_handle r := p]> (event_loop r) ∧
           cronJobs r1 = cronJobs r ∧ cron_loop r1 = cron_loop r)
   ∨ (∃ c, cronJobs r1 = <[Job.id job := next_handle r]> (cronJobs r) ∧
           cron_loop r1 = <[next_handle r := c]> (cron_loop r) ∧
           timers r1 = timers r ∧ event_loop r1 = event_loop r)).
Proof.
  cbv zeta. unfold scheduleNewJob. destruct (Job.type job).
  - split; [apply scheduleOneOff_repo|].
    pose proof (scheduleOneOff_cases job now r) as Hc.
    destruct (Job.scheduling job ≫= execute_at) as [runAt|]; [|left; by rewrite Hc].
    destruct (decide _).
    + left. rewrite Hc. destruct (enqueue_registry (Job.id job) r) as (-> & -> & -> & -> & _).
      done.
    + right. left. destruct (decide _); rewrite Hc; by eexists.
  - split; [apply scheduleRecurring_repo|].
    unfold scheduleRecurring. destruct (truthy _) as [e|]; [|by left].
    destruct (ca _ _); [|by left]. right. right. by eexists.
Qed.

Lemma execute_fresh i res jitter r : handles_fresh r → handles_fresh (execute i res jitter r).
Proof.
  intros H. unfold execute.
  pose proof (execute_begin_fresh_handles i r H) as Hb.
  destruct (execute_begin i r) as [r1 [job|]]; simpl in Hb; [|done].
  by apply execute_finish_fresh.
Qed.

Lemma fully_armed_fresh : handles_fresh fully_armed.
Proof.
  unfold fully_armed.
  apply scheduleRecurring_fresh, execute_fresh, scheduleOneOff_fresh, new_runner_fresh.
Qed.

(** X12. [create] followed by [remove] of the created id leaves no trace
    in the table or in the registries: when the generated id is new to the
    table and to the registries, the table, both registry maps, the pending
    timeouts and the started cron tasks are afterwards what they were before
    [create]. *)
Theorem create_then_remove ca createDto uuid now r :
  findOneBy uuid (repo r) = None →
  timers r !! uuid = None →
  (∀ key, String.prefix (uuid +:+ ":retry:") key = true → timers r !! key = None) →
  cronJobs r !! uuid = None →
  handles_fresh r →
  let r' := SchedulerService.remove uuid
              (SchedulerService.create ca createDto uuid now r).2 in
  repo r' = repo r ∧ timers r' = timers r ∧ cronJobs r' = cronJobs r ∧
  event_loop r' = event_loop r ∧ cron_loop r' = cron_loop r.
Proof.
  intros Hrow Ht Hretry Hc Hfresh. cbv zeta.
  destruct (handles_fresh_next r Hfresh) as [Hnone Hcnone].
  unfold SchedulerService.create. cbn [snd].
  set (saved := Job.mk uuid _ _ _ Scheduled 0%nat None).
  set (r0 := set_repo (save saved (repo r)) r).
  set (r1 := scheduleNewJob ca saved now r0).
  destruct (scheduleNewJob_shapes ca saved now r0) as [Hrepo1 Hshape]. fold r1 in Hrepo1, Hshape.
  change (Job.id saved) with uuid in Hshape.
  change (timers r0) with (timers r) in Hshape.
  change (event_loop r0) with (event_loop r) in Hshape.
  change (cronJobs r0) with (cronJobs r) in Hshape.
  change (cron_loop r0) with (cron_loop r) in Hshape.
  change (next_handle r0) with (next_handle r) in Hshape.
  assert (Hsave : repo r1 = repo r ++ [saved]).
  { rewrite Hrepo1. unfold r0, save. simpl. change (Job.id saved) with uuid. by rewrite Hrow. }
  assert (Hfind : findOneBy uuid (repo r1) = Some saved).
  { rewrite Hrepo1. exact (findOneBy_save_eq saved (repo r)). }
  unfold SchedulerService.remove. rewrite Hfind.
  destruct (unscheduleJob_registry uuid r1) as (U1 & U2 & U3).
  destruct (unscheduleJob_cancels uuid r1) as (K1 & K2 & K3).
  destruct (unscheduleJob_others uuid r1) as (O1 & O2 & O3 & O4 & O5 & _).
  simpl. split; [|split; [|split; [|split]]].
  - rewrite O5, Hsave, repo_remove_app, (repo_remove_absent saved) by done.
    unfold repo_remove. simpl. rewrite bool_decide_eq_true_2 by done. simpl.
    apply app_nil_r.
  - apply map_eq. intros key.
    destruct (decide (key = uuid)) as [->|Hne]; [by rewrite U1, Ht|].
    destruct (String.prefix (uuid +:+ ":retry:") key) eqn:Hp.
    + by rewrite (U2 key Hp), (Hretry key Hp).
    + rewrite (O1 key Hne Hp).
      destruct Hshape as [(-> & _)|[(p & -> & _)|(c & _ & _ & -> & _)]]; [done| |done].
      by rewrite lookup_insert_ne.
  - apply map_eq. intros j.
    destruct (decide (j = uuid)) as [->|Hne]; [by rewrite U3, Hc|].
    rewrite (O2 j Hne).
    destruct Hshape as [(_ & _ & -> & _)|[(p & _ & _ & -> & _)|(c & -> & _)]]; [done|done|].
    by rewrite lookup_insert_ne.
  - apply map_eq. intros h.
    destruct Hshape as [(T & E & _)|[(p & T & E & _)|(c & _ & _ & T & E)]].
    + rewrite O3; [by rewrite E | rewrite T, Ht; done |].
      intros key Hp. rewrite T, (Hretry key Hp). done.
    + destruct (decide (h = next_handle r)) as [->|Hne].
      * rewrite Hnone. apply K1. rewrite T. apply lookup_insert_eq.
      * rewrite O3.
        -- rewrite E. by rewrite lookup_insert_ne.
        -- rewrite T, lookup_insert_eq. congruence.
        -- intros key Hp. rewrite T.
           destruct (decide (key = uuid)) as [->|Hk].
           ++ rewrite lookup_insert_eq. congruence.
           ++ rewrite lookup_insert_ne by done. by rewrite (Hretry key Hp).
    + rewrite O3; [by rewrite E | rewrite T, Ht; done |].
      intros key Hp. rewrite T, (Hretry key Hp). done.
  - apply map_eq. intros h.
    destruct Hshape as [(_ & _ & C & L)|[(p & _ & _ & C & L)|(c & C & L & _)]].
    + rewrite O4; [by rewrite L | rewrite C, Hc; done].
    + rewrite O4; [by rewrite L | rewrite C, Hc; done].
    + destruct (decide (h = next_handle r)) as [->|Hne].
      * rewrite Hcnone. apply K3. rewrite C. apply lookup_insert_eq.
      * rewrite O4.
        -- rewrite L. by rewrite lookup_insert_ne.
        -- rewrite C, lookup_insert_eq. congruence.
Qed.

Lemma create_then_remove_witness :
  let r' := SchedulerService.remove "job-x"
              (SchedulerService.create accept_all
                 (Dto.mk Oneoff (Some {| execute_at := Some 5000; cron := None;
                                         timezone := Some "UTC"%string |}) None)
                 "job-x" 0 fully_armed).2 in
  repo r' = repo fully_armed ∧ timers r' = timers fully_armed ∧
  event_loop r' = event_loop fully_armed.
Proof.
  destruct (create_then_remove accept_all
              (Dto.mk Oneoff (Some {| execute_at := Some 5000; cron := None;
                                      timezone := Some "UTC"%string |}) None)
              "job-x" 0 fully_armed) as (H1 & H2 & _ & H4 & _).
  - reflexivity.
  - reflexivity.
  - intros key Hp. destruct (timers fully_armed !! key) as [t|] eqn:E; [|done].
    assert (Hin : key ∈ (map_to_list (timers fully_armed)).*1)
      by (apply keys_of_map; by rewrite E).
    vm_compute in Hin.
    repeat (apply elem_of_cons in Hin as [->|Hin]; [vm_compute in Hp; discriminate|]).
    by apply elem_of_nil in Hin.
  - reflexivity.
  - apply fully_armed_fresh.
  - intros r'. split; [exact H1|]. split; [exact H2 | exact H4].
Defined.

(** ** A one-off job from creation to completion *)

Lemma enqueue_launches fn r :
  running r < concurrency →
  enqueue fn r =
  launch fn (set_running (running r + 1) (set_submitted (submitted r ++ [fn]) r)).
Proof. intros H. unfold enqueue. simpl. by rewrite (proj2 (Z.ltb_lt _ _) H). Qed.

(** X13. A one-off job created for a time still to come, at most
    [MAX_TIMEOUT] ahead, gets one timer of exactly [execute_at - now] under
    its id. When that timer fires with a free slot in the queue, the task
    marks the row [running] with one attempt, and on a successful response
    the row is persisted [completed] with the attempt count back at 0 and no
    error; the job's timer entry is gone and no timeout is left pending for
    it. *)
Theorem created_oneoff_completes ca createDto uuid now now' runAt res jitter r :
  Dto.type createDto = Oneoff →
  Dto.scheduling createDto ≫= execute_at = Some runAt →
  now < runAt ≤ now + MAX_TIMEOUT →
  handles_fresh r →
  running r < concurrency →
  success res = true →
  let k := length (inflight r) in
  let r1 := (SchedulerService.create ca createDto uuid now r).2 in
  let r2 := timer_fires (next_handle r) now' r1 in
  let r3 := task_begins k r2 in
  let r4 := task_responds k res jitter r3 in
  event_loop r1 !! next_handle r =
    Some {| delay := runAt - now; callback := Submit uuid uuid |} ∧
  timers r1 !! uuid = Some (next_handle r) ∧
  SchedulerService.findOne uuid r3 =
    Some (Job.mk uuid Oneoff (Dto.scheduling createDto) (Dto.retries createDto)
            Running 1 None) ∧
  SchedulerService.findOne uuid r4 =
    Some (Job.mk uuid Oneoff (Dto.scheduling createDto) (Dto.retries createDto)
            Completed 0 None) ∧
  timers r4 !! uuid = None ∧
  event_loop r4 = event_loop r.
Proof.
  intros Hty Hat Hrange Hfresh Hcap Hs k r1 r2 r3 r4.
  destruct (handles_fresh_next r Hfresh) as [Hnone _].
  set (saved := Job.mk uuid Oneoff (Dto.scheduling createDto) (Dto.retries createDto)
                  Scheduled 0%nat None).
  set (r0 := set_repo (save saved (repo r)) r).
  assert (Hr1 : r1 = with_timer uuid
                       {| delay := runAt - now; callback := Submit uuid uuid |} r0).
  { unfold r1, SchedulerService.create. cbn [snd]. rewrite Hty. fold saved. fold r0.
    unfold scheduleNewJob. cbn [Job.type saved].
    pose proof (scheduleOneOff_cases saved now r0) as Hc.
    change (Job.scheduling saved) with (Dto.scheduling createDto) in Hc.
    rewrite Hat in Hc.
    rewrite decide_False in Hc by (intros [? _]; lia).
    rewrite decide_False in Hc by (unfold MAX_TIMEOUT in *; lia).
    replace (Z.max 0 (runAt - now)) with (runAt - now) in Hc by lia.
    exact Hc. }
  set (r2' := set_timers (delete uuid (<[uuid := next_handle r]> (timers r)))
                (set_next_handle (S (next_handle r)) r0)).
  assert (Hr2 : r2 = launch uuid (set_running (running r + 1)
                                    (set_submitted (submitted r ++ [uuid]) r2'))).
  { unfold r2. rewrite Hr1.
    pose proof (timer_fires_with_timer uuid
                  {| delay := runAt - now; callback := Submit uuid uuid |} now' r0 Hnone) as Hf.
    change (next_handle r0) with (next_handle r) in Hf.
    change (timers r0) with (timers r) in Hf. rewrite Hf. cbn [callback]. fold r2'.
    by rewrite (enqueue_launches uuid r2' Hcap). }
  assert (Hin2 : inflight r2 = inflight r ++ [(uuid, Starting)]) by (by rewrite Hr2).
  assert (Hrepo2 : repo r2 = save saved (repo r)) by (by rewrite Hr2).
  set (job1 := set_attempt_count 1 (set_status Running saved)).
  assert (Hr3 : r3 = set_inflight (<[k := (uuid, Awaiting job1)]> (inflight r2))
                       (set_repo (save job1 (repo r2)) r2)).
  { unfold r3, task_begins. rewrite Hin2. unfold k. rewrite list_lookup_middle by done.
    rewrite <- Hin2.
    rewrite (execute_begin_fresh uuid saved r2); [done| |done].
    rewrite Hrepo2. exact (findOneBy_save_eq saved (repo r)). }
  assert (Hr4 : r4 = settle k (execute_finish job1 res jitter r3)).
  { unfold r4. apply (task_responds_awaiting k uuid). rewrite Hr3. simpl.
    apply list_lookup_insert_eq. rewrite Hin2, length_app. unfold k. simpl. lia. }
  split; [rewrite Hr1; apply lookup_insert_eq|].
  split; [rewrite Hr1; apply lookup_insert_eq|].
  unfold SchedulerService.findOne. split; [|split; [|split]].
  - rewrite Hr3. simpl. exact (findOneBy_save_eq job1 _).
  - rewrite Hr4, settle_repo, (execute_finish_success _ _ _ _ Hs). simpl.
    exact (findOneBy_save_eq
             (Job.mk uuid Oneoff (Dto.scheduling createDto) (Dto.retries createDto)
                Completed 0 None) _).
  - rewrite Hr4. unfold settle.
    destruct (_taskDone_registry
                (set_inflight (delete k (inflight (execute_finish job1 res jitter r3)))
                   (execute_finish job1 res jitter r3))) as (-> & _).
    rewrite (execute_finish_success _ _ _ _ Hs), Hr3, Hr2. simpl.
    apply lookup_delete_eq.
  - rewrite Hr4. unfold settle.
    destruct (_taskDone_registry
                (set_inflight (delete k (inflight (execute_finish job1 res jitter r3)))
                   (execute_finish job1 res jitter r3))) as (_ & _ & -> & _).
    by rewrite (execute_finish_success _ _ _ _ Hs), Hr3, Hr2.
Qed.

Lemma created_oneoff_completes_witness :
  let dto := Dto.mk Oneoff (Some {| execute_at := Some 1000; cron := None;
                                    timezone := Some "UTC"%string |}) None in
  let r1 := (SchedulerService.create accept_all dto "job-x" 0 (new_runner [])).2 in
  let r4 := task_responds 0 (Response 200) 0 (task_begins 0 (timer_fires 0 1000 r1)) in
  SchedulerService.findOne "job-x" r4 =
    Some (Job.mk "job-x" Oneoff (Dto.scheduling dto) None Completed 0 None) ∧
  event_loop r4 = ∅.
Proof.
  intros dto r1 r4.
  destruct (created_oneoff_completes accept_all dto "job-x" 0 1000 1000 (Response 200) 0
              (new_runner [])) as (_ & _ & _ & H4 & _ & H6).
  - reflexivity.
  - reflexivity.
  - vm_compute. split; [reflexivity | discriminate].
  - apply new_runner_fresh.
  - reflexivity.
  - reflexivity.
  - split; [exact H4 | exact H6].
Defined.

(** ** Recurring jobs *)

Lemma ticks_S n task r : ticks (S n) task r = cron_ticks task (ticks n task r).
Proof. reflexivity. Qed.

Lemma ticks_spec task c r n :
  cron_loop r !! task = Some c →
  submitted (ticks n task r) = submitted r ++ replicate n (cron_job c) ∧
  cron_loop (ticks n task r) = cron_loop r ∧
  cronJobs (ticks n task r) = cronJobs r ∧
  repo (ticks n task r) = repo r.
Proof.
  intros Hc. induction n as [|n (I1 & I2 & I3 & I4)].
  - simpl. by rewrite app_nil_r.
  - rewrite ticks_S. set (rn := ticks n task r) in *.
    unfold cron_ticks. rewrite I2, Hc.
    destruct (enqueue_registry (cron_job c) rn) as (_ & E2 & _ & E4 & _).
    rewrite E2, E4, enqueue_repo. split; [|done].
    rewrite replicate_S_end, app_assoc, <- I1.
    unfold enqueue. simpl. by destruct (_ <? _).
Qed.

(** X14. [scheduleRecurring] arms nothing, and changes nothing, when the
    cron expression is missing or empty or when node-cron refuses it.
    Otherwise one cron task is started and registered under the job id,
    with the time zone as its only option (none when the time zone is empty),
    and every tick of that task hands the job to the queue once and leaves
    the task started: [n] ticks submit the job [n] times. *)
Theorem scheduleRecurring_ticks ca job r :
  handles_fresh r →
  let r1 := scheduleRecurring ca job r in
  let task := next_handle r in
  match truthy (Job.scheduling job ≫= cron) with
  | None => r1 = r
  | Some cronExpr =>
      if ca cronExpr (truthy (Job.scheduling job ≫= timezone)) then
        cronJobs r1 = <[Job.id job := task]> (cronJobs r) ∧
        cron_loop r1 =
          <[task := {| cron_expr := cronExpr;
                       cron_tz := truthy (Job.scheduling job ≫= timezone);
                       cron_job := Job.id job |}]> (cron_loop r) ∧
        ∀ n, submitted (ticks n task r1) = submitted r ++ replicate n (Job.id job) ∧
             cron_loop (ticks n task r1) = cron_loop r1 ∧
             cronJobs (ticks n task r1) = cronJobs r1 ∧
             repo (ticks n task r1) = repo r
      else r1 = r
  end.
Proof.
  intros Hfresh r1 task. unfold r1, scheduleRecurring.
  destruct (truthy (Job.scheduling job ≫= cron)) as [e|]; [|done].
  destruct (ca e _); [|done]. split; [done|]. split; [done|].
  intros n.
  match goal with |- context [ticks n task ?r0] =>
    exact (ticks_spec task
             {| cron_expr := e; cron_tz := truthy (Job.scheduling job ≫= timezone);
                cron_job := Job.id job |} r0 n (lookup_insert_eq _ _ _))
  end.
Qed.

Lemma scheduleRecurring_ticks_witness :
  submitted (ticks 3 0 (scheduleRecurring accept_all job_nightly (new_runner [job_nightly])))
  = ["job-n"; "job-n"; "job-n"]%string.
Proof.
  pose proof (scheduleRecurring_ticks accept_all job_nightly (new_runner [job_nightly])
                (new_runner_fresh [job_nightly])) as H.
  cbv zeta in H.
  change (truthy (Job.scheduling job_nightly ≫= cron)) with (Some "0 0 * * *"%string) in H.
  cbv beta iota in H.
  change (accept_all "0 0 * * *" (truthy (Job.scheduling job_nightly ≫= timezone)))
    with true in H.
  cbv beta iota in H. destruct H as (_ & _ & H). destruct (H 3%nat) as [H1 _].
  exact H1.
Defined.

(** ** The registry holds live handles only *)

Lemma registry_live_frame r r' :
  timers r' = timers r → event_loop r' = event_loop r →
  cronJobs r' = cronJobs r → cron_loop r' = cron_loop r →
  registry_live r → registry_live r'.
Proof. unfold registry_live. by intros -> -> -> ->. Qed.

Lemma with_timer_live key p r :
  key_of (callback p) = key → handles_fresh r →
  registry_live r → registry_live (with_timer key p r).
Proof.
  intros Hkey Hfresh [Ht Hc]. destruct (handles_fresh_next r Hfresh) as [Hnone _].
  split; simpl; [|exact Hc].
  intros k t Hk. destruct (decide (k = key)) as [->|Hne].
  - rewrite lookup_insert_eq in Hk. injection Hk as <-.
    exists p. by rewrite lookup_insert_eq.
  - rewrite lookup_insert_ne in Hk by done.
    destruct (Ht k t Hk) as (p' & Hp' & Hk').
    exists p'. split; [|done]. rewrite lookup_insert_ne; [done|]. congruence.
Qed.

(** Dropping a registry key together with the timeout registered under it
    (or a timeout whose closure deletes that key). *)
Lemma drop_timer_live key t r :
  (∀ p, event_loop r !! t = Some p → key_of (callback p) = key) →
  registry_live r →
  registry_live (set_timers (delete key (timers r))
                   (set_event_loop (delete t (event_loop r)) r)).
Proof.
  intros Hown [Ht Hc]. split; simpl; [|exact Hc].
  intros k t' Hk. destruct (decide (k = key)) as [->|Hne].
  - by rewrite lookup_delete_eq in Hk.
  - rewrite lookup_delete_ne in Hk by done.
    destruct (Ht k t' Hk) as (p' & Hp' & Hk').
    exists p'. split; [|done]. rewrite lookup_delete_ne; [done|].
    intros <-. apply Hne. rewrite <- Hk'. by apply Hown.
Qed.

Lemma drop_key_live key r :
  registry_live r → registry_live (set_timers (delete key (timers r)) r).
Proof.
  intros [Ht Hc]. split; simpl; [|exact Hc].
  intros k t' Hk. destruct (decide (k = key)) as [->|Hne].
  - by rewrite lookup_delete_eq in Hk.
  - rewrite lookup_delete_ne in Hk by done. by apply Ht.
Qed.

Lemma unregister_live key r :
  registry_live r →
  registry_live (let r1 := match timers r !! key with
                           | Some t => clearTimeout t r
                           | None => r
                           end in
                 set_timers (delete key (timers r1)) r1).
Proof.
  intros H. destruct (timers r !! key) as [t|] eqn:Hk.
  - apply (drop_timer_live key t r); [|done].
    intros p Hp. destruct H as [Ht _]. destruct (Ht key t Hk) as (p' & Hp' & Hk').
    congruence.
  - by apply drop_key_live.
Qed.

Lemma enqueue_live fn r : registry_live r → registry_live (enqueue fn r).
Proof.
  destruct (enqueue_registry fn r) as (H1 & H2 & H3 & H4 & _).
  by apply registry_live_frame.
Qed.

Lemma settle_live k r : registry_live r → registry_live (settle k r).
Proof.
  intros H. unfold settle.
  destruct (_taskDone_registry (set_inflight (delete k (inflight r)) r))
    as (H1 & H2 & H3 & H4 & _).
  by eapply registry_live_frame.
Qed.

Lemma scheduleNewJob_live ca job now r :
  handles_fresh r → registry_live r → registry_live (scheduleNewJob ca job now r).
Proof.
  intros Hfresh H. unfold scheduleNewJob. destruct (Job.type job).
  - pose proof (scheduleOneOff_cases job now r) as Hc.
    destruct (Job.scheduling job ≫= execute_at) as [runAt|]; [|by rewrite Hc].
    destruct (decide _); [rewrite Hc; by apply enqueue_live|].
    destruct (decide _); rewrite Hc; by apply with_timer_live.
  - unfold scheduleRecurring. destruct (truthy _) as [e|]; [|done].
    destruct (ca _ _); [|done].
    destruct H as [Ht Hc]. destruct (handles_fresh_next r Hfresh) as [_ Hnone].
    split; simpl; [exact Ht|].
    intros i task Hi. destruct (decide (i = Job.id job)) as [->|Hne].
    + rewrite lookup_insert_eq in Hi. injection Hi as <-.
      eexists. by rewrite lookup_insert_eq.
    + rewrite lookup_insert_ne in Hi by done.
      destruct (Hc i task Hi) as (c & Hc' & Hi').
      exists c. split; [|done]. rewrite lookup_insert_ne; [done|]. congruence.
Qed.

Lemma timer_fires_live t now r :
  handles_fresh r → registry_live r → registry_live (timer_fires t now r).
Proof.
  intros Hfresh H. unfold timer_fires. destruct (event_loop r !! t) as [p|] eqn:Hp; [|done].
  assert (H0 : registry_live (set_timers (delete (key_of (callback p)) (timers r))
                                (set_event_loop (delete t (event_loop r)) r))).
  { apply drop_timer_live; [|done]. intros p' Hp'. congruence. }
  assert (F0 : handles_fresh (set_timers (delete (key_of (callback p)) (timers r))
                                (set_event_loop (delete t (event_loop r)) r))).
  { apply set_timers_fresh. by apply (clearTimeout_fresh t). }
  destruct (callback p) as [job|key i]; simpl in H0, F0.
  - pose proof (scheduleOneOff_cases job now
                  (set_timers (delete (Job.id job) (timers r))
                     (set_event_loop (delete t (event_loop r)) r))) as Hc.
    simpl. destruct (Job.scheduling job ≫= execute_at) as [runAt|]; [|by rewrite Hc].
    destruct (decide _); [rewrite Hc; by apply enqueue_live|].
    destruct (decide _); rewrite Hc; by apply with_timer_live.
  - by apply enqueue_live.
Qed.

Lemma stop_cron_live i r : registry_live r → registry_live (stop_cron i r).
Proof.
  intros [Ht Hc]. unfold stop_cron. destruct (cronJobs r !! i) as [task|] eqn:Hi; [|done].
  split; simpl; [exact Ht|].
  intros j task' Hj. destruct (decide (j = i)) as [->|Hne].
  - by rewrite lookup_delete_eq in Hj.
  - rewrite lookup_delete_ne in Hj by done.
    destruct (Hc j task' Hj) as (c & Hc' & Hj').
    exists c. split; [|done]. rewrite lookup_delete_ne; [done|].
    intros <-. destruct (Hc i task Hi) as (c0 & Hc0 & Hi0). congruence.
Qed.

Lemma unscheduleJob_live i r : registry_live r → registry_live (unscheduleJob i r).
Proof.
  intros H. unfold unscheduleJob. apply stop_cron_live.
  assert (H1 : registry_live (clear_main i r)).
  { unfold clear_main. pose proof (unregister_live i r H) as Hu. cbv zeta in Hu.
    destruct (timers r !! i) as [t|] eqn:Hk; [exact Hu | done]. }
  unfold clear_retries. apply foldl_preserves; [|done].
  intros acc key Hacc. unfold clear_retry. destruct (String.prefix _ key); [|done].
  exact (unregister_live key acc Hacc).
Qed.

Lemma unscheduleAll_live r : registry_live (unscheduleAll r).
Proof.
  destruct (unscheduleAll_spec r) as (H1 & H2 & _).
  split; intros k t Hk; [rewrite H1 in Hk | rewrite H2 in Hk]; by rewrite lookup_empty in Hk.
Qed.

Lemma execute_finish_live job res jitter r :
  handles_fresh r → registry_live r → registry_live (execute_finish job res jitter r).
Proof.
  intros Hfresh H. unfold execute_finish. destruct (success res).
  - by eapply registry_live_frame.
  - destruct (_ && _); [|by eapply registry_live_frame].
    match goal with |- registry_live (let '(_, _) := setTimeout ?cb ?d ?r0 in _) =>
      change (registry_live
                (with_timer (retry_key (Job.id job) (Job.attempt_count job))
                   {| delay := d; callback := cb |} r0))
    end.
    apply with_timer_live; [done| |].
    + by eapply handles_fresh_frame.
    + by eapply registry_live_frame.
Qed.

Lemma step_live ca r e :
  e ≠ ModuleDestroy → handles_fresh r → registry_live r → registry_live (step ca r e).
Proof.
  intros Hne Hfresh H. destruct e; simpl; try done.
  - unfold onModuleInit.
    apply (foldl_preserves (fun a => handles_fresh a ∧ registry_live a)); [|done].
    intros acc job [Hf Hl]. split; [by apply scheduleNewJob_fresh | by apply scheduleNewJob_live].
  - by apply scheduleNewJob_live.
  - by apply unscheduleJob_live.
  - apply unscheduleAll_live.
  - by apply timer_fires_live.
  - unfold cron_ticks. destruct (cron_loop r !! task); [by apply enqueue_live | done].
  - unfold task_begins. destruct (inflight r !! k) as [[i [|job]]|]; [|done|done].
    unfold execute_begin. destruct (findOneBy i (repo r)); [|by apply settle_live].
    case_bool_decide; [by apply settle_live|]. by eapply registry_live_frame.
  - unfold task_responds. destruct (inflight r !! k) as [[i [|job]]|]; [done| |done].
    by apply settle_live, execute_finish_live.
  - unfold task_throws. destruct (inflight r !! k); [by apply settle_live | done].
Qed.

(** X15. As long as [onModuleDestroy] has not run, the registry tracks live
    handles only: in every state the service can reach, each entry of
    [timers] names a timeout that is still pending and whose closure
    deletes that very entry, and each entry of [cronJobs] names a started
    cron task of that job. *)
Theorem registry_tracks_live_handles ca rows evs :
  no_destroy evs → registry_live (run ca evs (new_runner rows)).
Proof.
  intros Hnd. unfold run.
  assert (Hgen : ∀ r, handles_fresh r → registry_live r →
             handles_fresh (foldl (step ca) r evs) ∧ registry_live (foldl (step ca) r evs)).
  { induction Hnd as [|e evs He Hevs IH]; intros r Hf Hl; simpl; [done|].
    apply IH; [by apply step_fresh | by apply step_live]. }
  apply Hgen; [apply new_runner_fresh|].
  split; intros k t Hk; simpl in Hk; by rewrite lookup_empty in Hk.
Qed.

Lemma registry_tracks_live_handles_witness :
  registry_live
    (run accept_all
       [NewJob job_soon 0; NewJob job_soon 0; TimerFires 0 5000; Unschedule "job-s"]
       (new_runner [job_soon])).
Proof.
  apply registry_tracks_live_handles.
  repeat (apply Forall_cons; split; [discriminate|]). apply Forall_nil_2.
Defined.

(** ** The queue drains *)

Lemma drain_all n : ∀ r,
  queue_inv r →
  n = (length (inflight r) + length (queue r))%nat →
  queue (drain n r) = [] ∧ inflight (drain n r) = [] ∧ running (drain n r) = 0 ∧
  launched (drain n r) = submitted r ∧ submitted (drain n r) = submitted r.
Proof.
  induction n as [|n IH]; intros r Hinv Hn.
  - destruct Hinv as (Hb & Hlen & Hfull & Hlog). simpl.
    destruct (inflight r) as [|e l] eqn:Hi; [|simpl in Hn; lia].
    destruct (queue r) as [|x q] eqn:Hq; [|simpl in Hn; lia].
    simpl in Hlen. rewrite app_nil_r in Hlog. done.
  - assert (Hk : (0 < length (inflight r))%nat).
    { destruct Hinv as (Hb & Hlen & Hfull & Hlog).
      destruct (inflight r) as [|e l] eqn:Hi; [|simpl; lia].
      destruct (queue r) as [|x q] eqn:Hq; [simpl in Hn; lia|].
      assert (running r = concurrency) by (by apply Hfull).
      simpl in Hlen. unfold concurrency in *. lia. }
    pose proof (settle_inv 0 r Hk Hinv) as Hinv'.
    assert (Hrun : 1 ≤ running r) by (destruct Hinv as (_ & Hlen & _); lia).
    pose proof (settle_spec 0 r Hrun) as Hs.
    assert (Hsub : submitted (settle 0 r) = submitted r).
    { unfold settle, _taskDone. simpl. by destruct (queue r). }
    assert (Hdel : length (delete 0%nat (inflight r)) = Nat.pred (length (inflight r))).
    { rewrite length_delete; [lia|]. by apply lookup_lt_is_Some_2. }
    cbn [drain]. destruct (IH (settle 0 r) Hinv') as (I1 & I2 & I3 & I4 & I5).
    + destruct (queue r) as [|next rest] eqn:Hq.
      * destruct Hs as (_ & -> & ->). rewrite Hdel. simpl in *. lia.
      * destruct Hs as (_ & -> & ->). rewrite length_app, Hdel. simpl in *. lia.
    + by rewrite I4, I5, Hsub.
Qed.

(** X16. No submitted task is lost or starved: from any state the service
    can reach, once as many chains have settled as there are tasks in
    flight and pending, the pending list is empty, nothing is running, and
    every id that was handed to [enqueue] has been started, in the order of
    submission. *)
Theorem queue_drains ca rows evs :
  let r := run ca evs (new_runner rows) in
  let n := (length (inflight r) + length (queue r))%nat in
  queue (drain n r) = [] ∧ inflight (drain n r) = [] ∧ running (drain n r) = 0 ∧
  launched (drain n r) = submitted r.
Proof.
  intros r n.
  destruct (drain_all n r) as (H1 & H2 & H3 & H4 & _); [|done|done].
  apply run_inv, new_runner_inv.
Qed.


(** ** One registration per job *)














































